(** * leanconstruction: schedule simulation of a construction project

    Shallow embedding of [leanconstruction.py].

    Numbers.  Python's [int] and [float] values are embedded as exact
    rationals ([Q]); [==], [<] and [>] on numbers are [Qeq_bool] and the
    strict order below.  Rounding of floating-point arithmetic is not part
    of this model; the module [Binary64] is the same engine on IEEE 754
    binary64 numbers, for the one statement that rounding decides.

    Randomness.  The module-level generator of [random] is an explicit
    state: the infinite sequence of values that successive calls of
    [random.random()] return, and the number of values already consumed.

    Exceptions.  A computation returns [inl e] when the Python code raises
    the exception [e], and [inr v] when it returns [v]. *)

From Stdlib Require Import QArith Lqa Lia ZArith List Floats.
From stdpp Require Import base gmap sets list strings relations.

Open Scope string_scope.
Open Scope list_scope.
Open Scope Q_scope.

(** ** Exceptions *)

(** Python exceptions, by class.  [KeyError] carries the missing key. *)
Inductive exn : Type :=
  | KeyError (key : string)
  | RecursionError
  | ZeroDivisionError
  | ValueError
  | OtherError (cls : string).

Definition InvalidParameter : exn := OtherError "InvalidParameter".

Definition result (A : Type) : Type := exn + A.

Definition bind {A B : Type} (m : result A) (k : A -> result B) : result B :=
  match m with
  | inl e => inl e
  | inr a => k a
  end.

Notation "'do' x <- m ; k" := (bind m (fun x => k))
  (at level 10, x name, m at level 100, k at level 200).
Notation "'do' ' p <- m ; k" := (bind m (fun p => k))
  (at level 10, p pattern, m at level 100, k at level 200).

(** ** Numbers *)

(** [x < y] on Python numbers. *)
Definition Qlt_bool (x y : Q) : bool :=
  (Qnum x * QDen y <? Qnum y * QDen x)%Z.

(** [x / y]: raises [ZeroDivisionError] when [y == 0]. *)
Definition py_div (x y : Q) : result Q :=
  if Qeq_bool y 0 then inl ZeroDivisionError else inr (x / y).

(** [sum(xs)]: starts from [0] and adds from the left. *)
Definition py_sum (xs : list Q) : Q := fold_left Qplus xs 0.

(** [max(xs)]: the first maximal item; [ValueError] on an empty sequence. *)
Definition py_max (xs : list Q) : result Q :=
  match xs with
  | [] => inl ValueError
  | x :: rest => inr (fold_left (fun m y => if Qlt_bool m y then y else m) rest x)
  end.

(** [min(xs)]: the first minimal item; [ValueError] on an empty sequence. *)
Definition py_min (xs : list Q) : result Q :=
  match xs with
  | [] => inl ValueError
  | x :: rest => inr (fold_left (fun m y => if Qlt_bool y m then y else m) rest x)
  end.

(** ** The random generator *)

Record Random : Type := mkRandom {
  draws : nat -> Q;   (* what the k-th call of random.random() returns *)
  consumed : nat      (* number of calls made so far *)
}.

(** [random.random()] *)
Definition random_random (g : Random) : Q * Random :=
  (draws g (consumed g), mkRandom (draws g) (S (consumed g))).

(** [random.uniform(a, b)], which is [a + (b - a) * random()]. *)
Definition random_uniform (a b : Q) (g : Random) : Q * Random :=
  let (u, g') := random_random g in (a + (b - a) * u, g').

(** Every value of [random.random()] lies in [[0, 1)]. *)
Definition unit_draws (g : Random) : Prop :=
  forall k : nat, 0 <= draws g k /\ draws g k < 1.

(** ** Tasks *)

Record Task : Type := mkTask {
  name : string;
  base_duration : Q;
  value_added : bool;
  delay_factor : Q;
  delay_probability : Q;
  dependencies : list string
}.

(** [Task.simulate_duration] *)
Definition simulate_duration (self : Task) (g : Random) : Q * Random :=
  if negb (value_added self) && Qlt_bool 0 (delay_factor self) then
    let (u, g1) := random_random g in
    if Qlt_bool u (delay_probability self) then
      let (delay, g2) := random_uniform 0 (delay_factor self) g1 in
      (base_duration self + delay, g2)
    else (base_duration self + 0, g1)
  else (base_duration self + 0, g).

(** ** Dictionaries that keep insertion order *)

(** A Python [dict] whose iteration order is observed: the items in
    insertion order.  Assigning to a key that is present replaces the value
    in place; a new key goes to the end. *)
Definition dict (V : Type) : Type := list (string * V).

Fixpoint dict_get {V : Type} (d : dict V) (k : string) : option V :=
  match d with
  | [] => None
  | (k', v) :: rest => if decide (k' = k) then Some v else dict_get rest k
  end.

Fixpoint dict_set {V : Type} (d : dict V) (k : string) (v : V) : dict V :=
  match d with
  | [] => [(k, v)]
  | (k', v') :: rest =>
      if decide (k' = k) then (k', v) :: rest else (k', v') :: dict_set rest k v
  end.

(** [k in d] *)
Definition dict_mem {V : Type} (d : dict V) (k : string) : bool :=
  bool_decide (is_Some (dict_get d k)).

(** [d[k]] *)
Definition dict_item {V : Type} (d : dict V) (k : string) : result V :=
  match dict_get d k with
  | Some v => inr v
  | None => inl (KeyError k)
  end.

(** [d.values()] *)
Definition dict_values {V : Type} (d : dict V) : list V := map snd d.

(** ** Topological ordering (the nested function [visit]) *)

(** [{task.name: task for task in tasks}]: a later task of the same name
    replaces an earlier one. *)
Definition tasks_by_name (tasks : list Task) : gmap string Task :=
  foldl (fun m task => <[name task := task]> m) ∅ tasks.

(** The two variables [visit] closes over: the list [order] and the set
    [seen]. *)
Definition visit_state : Type := list Task * gset string.

(** The loop [for dep in task.dependencies] of [visit]; [rec] is the
    recursive call. *)
Fixpoint visit_deps (by_name : gmap string Task)
    (rec : Task -> visit_state -> result visit_state)
    (deps : list string) (st : visit_state) : result visit_state :=
  match deps with
  | [] => inr st
  | dep :: rest =>
      do st' <- (if decide (dep ∈ st.2) then inr st
                 else match by_name !! dep with
                      | Some t => rec t st
                      | None => inl (KeyError dep)
                      end);
      visit_deps by_name rec rest st'
  end.

(** [visit(task)].  [fuel] is the number of nested calls of [visit] that
    the interpreter can still carry out; with none left the call raises
    [RecursionError].  It is not [sys.getrecursionlimit()]: that limit
    counts every frame on the stack, so what remains for [visit] is the
    limit less the frames of [simulate_project] and its callers and less
    what the body of the innermost call needs. *)
Fixpoint visit (fuel : nat) (by_name : gmap string Task) (task : Task)
    (st : visit_state) : result visit_state :=
  match fuel with
  | O => inl RecursionError
  | S fuel' =>
      do st' <- visit_deps by_name (visit fuel' by_name) (dependencies task) st;
      if decide (name task ∈ st'.2)
      then inr st'
      else inr (st'.1 ++ [task], {[name task]} ∪ st'.2)
  end.

(** The loop [for task in tasks: visit(task)]. *)
Fixpoint visit_all (fuel : nat) (by_name : gmap string Task)
    (tasks : list Task) (st : visit_state) : result visit_state :=
  match tasks with
  | [] => inr st
  | task :: rest =>
      do st' <- visit fuel by_name task st;
      visit_all fuel by_name rest st'
  end.

(** Lines 61-75: the list [order] after the loop. *)
Definition topological_order (fuel : nat) (tasks : list Task) : result (list Task) :=
  do st <- visit_all fuel (tasks_by_name tasks) tasks ([], ∅);
  inr st.1.

(** ** The schedule *)

(** The tuple [(start, finish, real_duration, value_added, base_duration)]. *)
Record ScheduleEntry : Type := mkEntry {
  start_time : Q;
  finish_time : Q;
  real_duration : Q;
  entry_value_added : bool;
  entry_base_duration : Q
}.

(** [max(schedule[dep][1] for dep in deps)] *)
Fixpoint dep_finishes (schedule : dict ScheduleEntry) (deps : list string)
    : result (list Q) :=
  match deps with
  | [] => inr []
  | dep :: rest =>
      do e <- dict_item schedule dep;
      do fs <- dep_finishes schedule rest;
      inr (finish_time e :: fs)
  end.

Definition start_of (schedule : dict ScheduleEntry) (deps : list string) : result Q :=
  match deps with
  | [] => inr 0
  | _ :: _ => do fs <- dep_finishes schedule deps; py_max fs
  end.

(** Lines 79-87: the loop [for task in order]. *)
Fixpoint schedule_loop (order : list Task) (schedule : dict ScheduleEntry)
    (g : Random) : result (dict ScheduleEntry * Random) :=
  match order with
  | [] => inr (schedule, g)
  | task :: rest =>
      do start <- start_of schedule (dependencies task);
      let (duration, g') := simulate_duration task g in
      let finish := start + duration in
      schedule_loop rest
        (dict_set schedule (name task)
           (mkEntry start finish duration (value_added task) (base_duration task)))
        g'
  end.

(** Line 89 *)
Definition total_duration_of (schedule : dict ScheduleEntry) : result Q :=
  if dict_mem schedule "Inspeção"
  then do e <- dict_item schedule "Inspeção"; inr (finish_time e)
  else py_max (map finish_time (dict_values schedule)).

(** Line 90 *)
Definition total_value_added_of (tasks : list Task) : Q :=
  py_sum (map base_duration (filter (fun task => value_added task = true) tasks)).

(** What [simulate_project] returns: a 4-tuple when [return_schedule] is
    true, a 3-tuple otherwise. *)
Inductive retval : Type :=
  | Ret4 (schedule : dict ScheduleEntry) (total_duration total_value_added efficiency : Q)
  | Ret3 (total_duration total_value_added efficiency : Q).

Definition ret_schedule (r : retval) : option (dict ScheduleEntry) :=
  match r with Ret4 s _ _ _ => Some s | Ret3 _ _ _ => None end.
Definition ret_total_duration (r : retval) : Q :=
  match r with Ret4 _ d _ _ => d | Ret3 d _ _ => d end.
Definition ret_total_value_added (r : retval) : Q :=
  match r with Ret4 _ _ v _ => v | Ret3 _ v _ => v end.
Definition ret_efficiency (r : retval) : Q :=
  match r with Ret4 _ _ _ e => e | Ret3 _ _ e => e end.

(** Lines 61-87: the dictionary [schedule] after the second loop. *)
Definition compute_schedule (fuel : nat) (tasks : list Task) (g : Random)
    : result (dict ScheduleEntry * Random) :=
  do order <- topological_order fuel tasks;
  schedule_loop order [] g.

(** Lines 61-96 for a given list [tasks]. *)
Definition simulate_tasks (fuel : nat) (tasks : list Task) (return_schedule : bool)
    (g : Random) : result (retval * Random) :=
  do '(schedule, g') <- compute_schedule fuel tasks g;
  do total_duration <- total_duration_of schedule;
  let total_value_added := total_value_added_of tasks in
  do ratio <- py_div total_value_added total_duration;
  let efficiency := 100 * ratio in
  if return_schedule
  then inr (Ret4 schedule total_duration total_value_added efficiency, g')
  else inr (Ret3 total_duration total_value_added efficiency, g').

(** Lines 49-59: the project. *)
Definition tasks (lean_improvement : Q) : list Task :=
  [ mkTask "Planejamento" 20 true 0 1 [];
    mkTask "Licenciamento" 10 false (5 * (1 - lean_improvement)) (8 # 10) ["Planejamento"];
    mkTask "Mobilização" 5 false (3 * (1 - lean_improvement)) (7 # 10) ["Licenciamento"];
    mkTask "Escavação" 15 true 0 1 ["Mobilização"];
    mkTask "Estrutura" 25 true 0 1 ["Escavação"];
    mkTask "Alvenaria" 20 true 0 1 ["Estrutura"];
    mkTask "Instalações" 10 true 0 1 ["Estrutura"];
    mkTask "Acabamentos" 10 true 0 1 ["Alvenaria"; "Instalações"];
    mkTask "Inspeção" 5 true 0 1 ["Acabamentos"] ].

(** The depth of recursion that a call of [simulate_project] gives to
    [visit].  The interpreter's limit, 1000 unless it was changed, counts
    every frame on the stack, so fewer than 1000 nested calls of [visit]
    remain (how many depends on the caller); 1000 is an upper bound of
    that number.  The ordering of the project of lines 49-59 nests [visit]
    to depth one, so the bound is not reached in a run of
    [simulate_project]; statements about other task lists take the
    remaining depth as the parameter [fuel]. *)
Definition recursion_limit : nat := 1000.

(** [simulate_project(return_schedule, lean_improvement)] *)
Definition simulate_project (return_schedule : bool) (lean_improvement : Q)
    (g : Random) : result (retval * Random) :=
  simulate_tasks recursion_limit (tasks lean_improvement) return_schedule g.

(** ** Monte Carlo *)

(** The values that [run_monte_carlo_simulation] prints. *)
Record Report : Type := mkReport {
  report_simulations : Z;
  avg_duration : Q;
  avg_value_added : Q;
  report_efficiency : Q;
  min_duration : Q;
  max_duration : Q
}.

(** Lines 124-131: the accumulators [total_duration], [total_value_added]
    and [durations] across [n] iterations. *)
Fixpoint monte_carlo_loop (n : nat) (lean_improvement : Q)
    (acc : Q * Q * list Q) (g : Random) : result (Q * Q * list Q * Random) :=
  match n with
  | O => inr (acc, g)
  | S n' =>
      let '(total_duration, total_value_added, durations) := acc in
      do '(r, g') <- simulate_project false lean_improvement g;
      monte_carlo_loop n' lean_improvement
        (total_duration + ret_total_duration r,
         total_value_added + ret_total_value_added r,
         durations ++ [ret_total_duration r])
        g'
  end.

(** [run_monte_carlo_simulation(num_simulations, lean_improvement)];
    [range(n)] is empty when [n <= 0]. *)
Definition run_monte_carlo_simulation (num_simulations : Z) (lean_improvement : Q)
    (g : Random) : result (Report * Random) :=
  do '(total_duration, total_value_added, durations, g') <-
    monte_carlo_loop (Z.to_nat num_simulations) lean_improvement (0, 0, []) g;
  do avg_dur <- py_div total_duration (inject_Z num_simulations);
  do avg_val <- py_div total_value_added (inject_Z num_simulations);
  do ratio <- py_div avg_val avg_dur;
  let efficiency := 100 * ratio in
  do lo <- py_min durations;
  do hi <- py_max durations;
  inr (mkReport num_simulations avg_dur avg_val efficiency lo hi, g').

(** ** Generators for concrete runs *)

(** A generator whose every value is [u]. *)
Definition constant_random (u : Q) : Random := mkRandom (fun _ => u) 0.

(** A generator that returns the values of [us] first and [0] afterwards. *)
Definition list_random (us : list Q) : Random :=
  mkRandom (fun k => nth k us 0) 0.

(** ** The engine on binary64 numbers *)

(** A Python [float] is an IEEE 754 binary64 number, and every operation on
    floats rounds its result.  This module is the engine once more, line
    by line, with the binary64 numbers of the kernel in place of [Q]; it
    serves the statement on the mean of the durations, which rounding
    decides.  The [int] values of the source (the base durations, [0], the
    number of simulations) are far below [2^53]: they, their sums and their
    conversions to [float] are exact. *)
Module Binary64.

Local Open Scope float_scope.

(** An [int] as a [float]. *)
Definition of_int (z : Z) : float :=
  match z with
  | Z0 => 0
  | Zpos _ => PrimFloat.of_uint63 (Uint63.of_Z z)
  | Zneg p => - PrimFloat.of_uint63 (Uint63.of_Z (Zpos p))
  end.

(** [x / y]: raises [ZeroDivisionError] when [y] is zero. *)
Definition py_div (x y : float) : result float :=
  if PrimFloat.eqb y 0 then inl ZeroDivisionError else inr (x / y).

(** [sum(xs)] *)
Definition py_sum (xs : list float) : float := fold_left PrimFloat.add xs 0.

(** [max(xs)] *)
Definition py_max (xs : list float) : result float :=
  match xs with
  | [] => inl ValueError
  | x :: rest =>
      inr (fold_left (fun m y => if PrimFloat.ltb m y then y else m) rest x)
  end.

(** [min(xs)] *)
Definition py_min (xs : list float) : result float :=
  match xs with
  | [] => inl ValueError
  | x :: rest =>
      inr (fold_left (fun m y => if PrimFloat.ltb y m then y else m) rest x)
  end.

(** The generator: [random.random()] returns a multiple of [2^-53] in
    [[0, 1)]. *)
Record Random : Type := mkRandom {
  draws : nat -> float;
  consumed : nat
}.

(** [random.random()] *)
Definition random_random (g : Random) : float * Random :=
  (draws g (consumed g), mkRandom (draws g) (S (consumed g))).

(** [random.uniform(a, b)], which is [a + (b - a) * random()]. *)
Definition random_uniform (a b : float) (g : Random) : float * Random :=
  let (u, g') := random_random g in (a + (b - a) * u, g').

Record Task : Type := mkTask {
  name : string;
  base_duration : float;
  value_added : bool;
  delay_factor : float;
  delay_probability : float;
  dependencies : list string
}.

(** [Task.simulate_duration] *)
Definition simulate_duration (self : Task) (g : Random) : float * Random :=
  if negb (value_added self) && PrimFloat.ltb 0 (delay_factor self) then
    let (u, g1) := random_random g in
    if PrimFloat.ltb u (delay_probability self) then
      let (delay, g2) := random_uniform 0 (delay_factor self) g1 in
      (base_duration self + delay, g2)
    else (base_duration self + 0, g1)
  else (base_duration self + 0, g).

(** Lines 61-75, as above. *)
Definition tasks_by_name (tasks : list Task) : gmap string Task :=
  foldl (fun m task => <[name task := task]> m) ∅ tasks.

Definition visit_state : Type := list Task * gset string.

Fixpoint visit_deps (by_name : gmap string Task)
    (rec : Task -> visit_state -> result visit_state)
    (deps : list string) (st : visit_state) : result visit_state :=
  match deps with
  | [] => inr st
  | dep :: rest =>
      do st' <- (if decide (dep ∈ st.2) then inr st
                 else match by_name !! dep with
                      | Some t => rec t st
                      | None => inl (KeyError dep)
                      end);
      visit_deps by_name rec rest st'
  end.

Fixpoint visit (fuel : nat) (by_name : gmap string Task) (task : Task)
    (st : visit_state) : result visit_state :=
  match fuel with
  | O => inl RecursionError
  | S fuel' =>
      do st' <- visit_deps by_name (visit fuel' by_name) (dependencies task) st;
      if decide (name task ∈ st'.2)
      then inr st'
      else inr (st'.1 ++ [task], {[name task]} ∪ st'.2)
  end.

Fixpoint visit_all (fuel : nat) (by_name : gmap string Task)
    (tasks : list Task) (st : visit_state) : result visit_state :=
  match tasks with
  | [] => inr st
  | task :: rest =>
      do st' <- visit fuel by_name task st;
      visit_all fuel by_name rest st'
  end.

Definition topological_order (fuel : nat) (tasks : list Task) : result (list Task) :=
  do st <- visit_all fuel (tasks_by_name tasks) tasks ([], ∅);
  inr st.1.

(** The tuple [(start, finish, real_duration, value_added, base_duration)]. *)
Record ScheduleEntry : Type := mkEntry {
  start_time : float;
  finish_time : float;
  real_duration : float;
  entry_value_added : bool;
  entry_base_duration : float
}.

(** [max(schedule[dep][1] for dep in deps)] *)
Fixpoint dep_finishes (schedule : dict ScheduleEntry) (deps : list string)
    : result (list float) :=
  match deps with
  | [] => inr []
  | dep :: rest =>
      do e <- dict_item schedule dep;
      do fs <- dep_finishes schedule rest;
      inr (finish_time e :: fs)
  end.

Definition start_of (schedule : dict ScheduleEntry) (deps : list string)
    : result float :=
  match deps with
  | [] => inr 0
  | _ :: _ => do fs <- dep_finishes schedule deps; py_max fs
  end.

(** Lines 79-87 *)
Fixpoint schedule_loop (order : list Task) (schedule : dict ScheduleEntry)
    (g : Random) : result (dict ScheduleEntry * Random) :=
  match order with
  | [] => inr (schedule, g)
  | task :: rest =>
      do start <- start_of schedule (dependencies task);
      let (duration, g') := simulate_duration task g in
      let finish := start + duration in
      schedule_loop rest
        (dict_set schedule (name task)
           (mkEntry start finish duration (value_added task) (base_duration task)))
        g'
  end.

(** Line 89 *)
Definition total_duration_of (schedule : dict ScheduleEntry) : result float :=
  if dict_mem schedule "Inspeção"
  then do e <- dict_item schedule "Inspeção"; inr (finish_time e)
  else py_max (map finish_time (dict_values schedule)).

(** Line 90 *)
Definition total_value_added_of (tasks : list Task) : float :=
  py_sum (map base_duration (filter (fun task => value_added task = true) tasks)).

Inductive retval : Type :=
  | Ret4 (schedule : dict ScheduleEntry)
      (total_duration total_value_added efficiency : float)
  | Ret3 (total_duration total_value_added efficiency : float).

Definition ret_total_duration (r : retval) : float :=
  match r with Ret4 _ d _ _ => d | Ret3 d _ _ => d end.
Definition ret_total_value_added (r : retval) : float :=
  match r with Ret4 _ _ v _ => v | Ret3 _ v _ => v end.

(** Lines 49-59; [0.8] and [0.7] are the binary64 numbers nearest to
    them. *)
Definition tasks (lean_improvement : float) : list Task :=
  [ mkTask "Planejamento" 20 true 0 1 [];
    mkTask "Licenciamento" 10 false (5 * (1 - lean_improvement))
      0x1.999999999999ap-1 ["Planejamento"];
    mkTask "Mobilização" 5 false (3 * (1 - lean_improvement))
      0x1.6666666666666p-1 ["Licenciamento"];
    mkTask "Escavação" 15 true 0 1 ["Mobilização"];
    mkTask "Estrutura" 25 true 0 1 ["Escavação"];
    mkTask "Alvenaria" 20 true 0 1 ["Estrutura"];
    mkTask "Instalações" 10 true 0 1 ["Estrutura"];
    mkTask "Acabamentos" 10 true 0 1 ["Alvenaria"; "Instalações"];
    mkTask "Inspeção" 5 true 0 1 ["Acabamentos"] ].

(** [simulate_project(return_schedule, lean_improvement)] *)
Definition simulate_project (return_schedule : bool) (lean_improvement : float)
    (g : Random) : result (retval * Random) :=
  let tasks := tasks lean_improvement in
  do order <- topological_order recursion_limit tasks;
  do '(schedule, g') <- schedule_loop order [] g;
  do total_duration <- total_duration_of schedule;
  let total_value_added := total_value_added_of tasks in
  do ratio <- py_div total_value_added total_duration;
  let efficiency := 100 * ratio in
  if return_schedule
  then inr (Ret4 schedule total_duration total_value_added efficiency, g')
  else inr (Ret3 total_duration total_value_added efficiency, g').

(** The values that [run_monte_carlo_simulation] prints. *)
Record Report : Type := mkReport {
  report_simulations : Z;
  avg_duration : float;
  avg_value_added : float;
  report_efficiency : float;
  min_duration : float;
  max_duration : float
}.

(** Lines 124-131 *)
Fixpoint monte_carlo_loop (n : nat) (lean_improvement : float)
    (acc : float * float * list float) (g : Random)
    : result (float * float * list float * Random) :=
  match n with
  | O => inr (acc, g)
  | S n' =>
      let '(total_duration, total_value_added, durations) := acc in
      do '(r, g') <- simulate_project false lean_improvement g;
      monte_carlo_loop n' lean_improvement
        (total_duration + ret_total_duration r,
         total_value_added + ret_total_value_added r,
         durations ++ [ret_total_duration r])
        g'
  end.

(** [run_monte_carlo_simulation(num_simulations, lean_improvement)] *)
Definition run_monte_carlo_simulation (num_simulations : Z)
    (lean_improvement : float) (g : Random) : result (Report * Random) :=
  do '(total_duration, total_value_added, durations, g') <-
    monte_carlo_loop (Z.to_nat num_simulations) lean_improvement (0, 0, []) g;
  do avg_dur <- py_div total_duration (of_int num_simulations);
  do avg_val <- py_div total_value_added (of_int num_simulations);
  do ratio <- py_div avg_val avg_dur;
  let efficiency := 100 * ratio in
  do lo <- py_min durations;
  do hi <- py_max durations;
  inr (mkReport num_simulations avg_dur avg_val efficiency lo hi, g').

(** A generator that returns the values of [us] first and [0] afterwards. *)
Definition list_random (us : list float) : Random :=
  mkRandom (fun k => nth k us 0) 0.

(** [u] is a value that [random.random()] can return: in [[0, 1)]. *)
Definition unit_draw (u : float) : bool :=
  PrimFloat.leb 0 u && PrimFloat.ltb u 1.

(** The values drawn in one run in which Licenciamento is delayed by
    [5 * 2^-47] days and Mobilização is not delayed; three such runs. *)
Definition late_run : list float := [0.5; 0x1p-47; 0.75].
Definition three_late_runs : Random :=
  list_random (late_run ++ late_run ++ late_run).

(** The same with a delay of [5 * 154 * 2^-53] days. *)
Definition later_run : list float := [0.5; 154 * 0x1p-53; 0.75].
Definition three_later_runs : Random :=
  list_random (later_run ++ later_run ++ later_run).

End Binary64.

(** ** Notions used in the statements *)

(** The keys of a dictionary, in insertion order. *)
Definition keys {V : Type} (d : dict V) : list string := map fst d.

(** [x] is a maximum of the list [xs]. *)
Definition is_max_of (x : Q) (xs : list Q) : Prop :=
  x ∈ xs /\ forall y, y ∈ xs -> y <= x.

(** [x] is a minimum of the list [xs]. *)
Definition is_min_of (x : Q) (xs : list Q) : Prop :=
  x ∈ xs /\ forall y, y ∈ xs -> x <= y.

(** Every task of [order] comes after its dependencies: each one is in
    [earlier] or is the name of an earlier task of [order]. *)
Fixpoint deps_before (earlier : list string) (order : list Task) : bool :=
  match order with
  | [] => true
  | t :: rest =>
      forallb (fun d => bool_decide (d ∈ earlier)) (dependencies t)
      && deps_before (earlier ++ [name t]) rest
  end.

(** What the schedule records for task [t]: the entry [e] ends at
    [start + real_duration], starts at the value of the expression of
    lines 81-84 on the final schedule, and copies the two task fields. *)
Definition entry_ok (schedule : dict ScheduleEntry) (t : Task) (e : ScheduleEntry) : Prop :=
  finish_time e = start_time e + real_duration e /\
  start_of schedule (dependencies t) = inr (start_time e) /\
  entry_value_added e = value_added t /\
  entry_base_duration e = base_duration t.

(** The finish time that [schedule] records for [dep]. *)
Definition finish_in (schedule : dict ScheduleEntry) (dep : string) (f : Q) : Prop :=
  exists e, dict_get schedule dep = Some e /\ finish_time e = f.

(** The larger of two numbers (the second one when they are equal only if
    it is strictly larger, as in [max]). *)
Definition Qmax2 (x y : Q) : Q := if Qlt_bool x y then y else x.

(** The largest sum of base durations along a chain of dependencies that
    ends at the task called [n]; [fuel] bounds the length of the chain. *)
Fixpoint longest_chain (fuel : nat) (by_name : gmap string Task) (n : string) : Q :=
  match fuel with
  | O => 0
  | S fuel' =>
      match by_name !! n with
      | None => 0
      | Some t =>
          base_duration t
          + foldr (fun d acc => Qmax2 (longest_chain fuel' by_name d) acc) 0
              (dependencies t)
      end
  end.

(** The critical path: the largest sum of base durations along any chain
    of dependencies of the project. *)
Definition critical_path (tasks : list Task) : Q :=
  foldr (fun t acc =>
           Qmax2 (longest_chain (length tasks) (tasks_by_name tasks) (name t)) acc)
        0 tasks.


(** [runs li g ds g']: successive calls of
    [simulate_project(lean_improvement=li)], the first one with the generator
    in state [g], return the total durations [ds] and leave the generator in
    state [g']. *)
Inductive runs (li : Q) : Random -> list Q -> Random -> Prop :=
  | runs_nil (g : Random) : runs li g [] g
  | runs_cons (g g1 g' : Random) (r : retval) (ds : list Q) :
      simulate_project false li g = inr (r, g1) ->
      runs li g1 ds g' ->
      runs li g (ret_total_duration r :: ds) g'.

(** The number of items of a list, as a Python number. *)
Definition len (xs : list Q) : Q := inject_Z (Z.of_nat (length xs)).

(** The mean of the numbers [xs] in exact arithmetic: their sum divided by
    their count, nothing rounded.  (The mean that lines 129 and 132 compute
    on floats is rounded at every addition and at the division.) *)
Definition exact_mean (xs : list Q) : Q := fold_left Qplus xs 0 / len xs.

(** The generators [g1] and [g2] have made the same number of calls and
    return the same values up to (and excluding) the [N]-th call. *)
Definition agree_until (N : nat) (g1 g2 : Random) : Prop :=
  consumed g1 = consumed g2 /\
  forall k, (consumed g1 <= k < N)%nat -> draws g1 k = draws g2 k.

(** The generators [g1] and [g2] are in states that return the same next
    [n] values. *)
Definition same_draws (n : nat) (g1 g2 : Random) : Prop :=
  agree_until (consumed g1 + n) g1 g2.

(** Two calls end alike: they raise the same exception, or return the same
    value after the same number of calls of the generator. *)
Definition same_outcome {A : Type} (x y : result (A * Random)) : Prop :=
  match x, y with
  | inl e1, inl e2 => e1 = e2
  | inr (a1, g1), inr (a2, g2) => a1 = a2 /\ consumed g1 = consumed g2
  | _, _ => False
  end.

(** The number of values of the generator that the tasks of [order] can
    draw: two for each task that does not add value. *)
Definition max_draws (order : list Task) : nat :=
  2 * length (filter (fun t => value_added t = false) order).

(** ** Notions about the dependency graph *)

(** The task called [a] lists [b] as a dependency. *)
Definition depends_on (tasks : list Task) (a b : string) : Prop :=
  exists t, t ∈ tasks /\ name t = a /\ b ∈ dependencies t.

(** No two tasks have the same name. *)
Definition unique_names (tasks : list Task) : Prop := NoDup (map name tasks).


(** Every dependency is the name of a task. *)
Definition well_referenced (tasks : list Task) : Prop :=
  forall t d, t ∈ tasks -> d ∈ dependencies t -> d ∈ map name tasks.


Definition acyclic (tasks : list Task) : Prop :=
  forall n, ~ tc (depends_on tasks) n n.

(** The position of the first occurrence of [n] in [l]. *)
Fixpoint index_of (n : string) (l : list string) : nat :=
  match l with
  | [] => O
  | x :: l' => if decide (x = n) then O else S (index_of n l')
  end.

(** What holds of [order] and [seen] between two calls of [visit]: [order]
    lists tasks of the project, without repetition and each after its
    dependencies, and [seen] is the set of their names. *)
Definition visit_inv (tasks : list Task) (st : visit_state) : Prop :=
  NoDup (map name st.1) /\
  (forall n, n ∈ st.2 <-> n ∈ map name st.1) /\
  (forall t, t ∈ st.1 -> t ∈ tasks) /\
  deps_before [] st.1 = true.

(** What a returning call [visit(t)] has achieved. *)
Definition visit_post (tasks : list Task) (st : visit_state) (t : Task)
    (st' : visit_state) : Prop :=
  visit_inv tasks st' /\ name t ∈ st'.2 /\ st.2 ⊆ st'.2.

(** The only exceptions of the ordering: the one of the interpreter when
    the recursion is too deep, and the one of the lookup of a dependency
    that is not a key of [tasks_by_name]. *)
Definition visit_error (tasks : list Task) (by_name : gmap string Task)
    (e : exn) : Prop :=
  e = RecursionError \/
  exists t d, e = KeyError d /\ t ∈ tasks /\ d ∈ dependencies t /\
    by_name !! d = None.






(** Two tasks with the same name. *)
Definition duplicate_example : list Task :=
  [ mkTask "A" 1 true 0 1 []; mkTask "A" 2 true 0 1 [] ].

(** The two tasks of the project that do not add value. *)
Definition licenciamento (lean_improvement : Q) : Task :=
  mkTask "Licenciamento" 10 false (5 * (1 - lean_improvement)) (8 # 10)
    ["Planejamento"].

Definition mobilizacao (lean_improvement : Q) : Task :=
  mkTask "Mobilização" 5 false (3 * (1 - lean_improvement)) (7 # 10)
    ["Licenciamento"].

(** The start and finish day of every task of the project when
    Licenciamento takes [d1] days and Mobilização [d2]. *)
Definition reference_rows (d1 d2 : Q) : list (string * Q * Q) :=
  [ ("Planejamento", 0, 20);
    ("Licenciamento", 20, 20 + d1);
    ("Mobilização", 20 + d1, 20 + d1 + d2);
    ("Escavação", 20 + d1 + d2, 35 + d1 + d2);
    ("Estrutura", 35 + d1 + d2, 60 + d1 + d2);
    ("Alvenaria", 60 + d1 + d2, 80 + d1 + d2);
    ("Instalações", 60 + d1 + d2, 70 + d1 + d2);
    ("Acabamentos", 80 + d1 + d2, 90 + d1 + d2);
    ("Inspeção", 90 + d1 + d2, 95 + d1 + d2) ].

(** The item [(key, entry)] of a schedule is the row [(key, start, finish)]. *)
Definition matches_row (item : string * ScheduleEntry) (row : string * Q * Q) : Prop :=
  item.1 = row.1.1 /\
  start_time item.2 == row.1.2 /\
  finish_time item.2 == row.2.

(** The tasks [t1] and [t2] are scheduled alike: they differ at most in
    parameters of the delay that leave every sampled duration unchanged. *)
Definition same_sampling (t1 t2 : Task) : Prop :=
  name t1 = name t2 /\ base_duration t1 = base_duration t2 /\
  value_added t1 = value_added t2 /\ dependencies t1 = dependencies t2 /\
  forall g, simulate_duration t1 g = simulate_duration t2 g.

(* -------------------------------------------------------------------- *)
(** ** Numbers: basic facts *)

Lemma Qlt_bool_iff (x y : Q) : Qlt_bool x y = true <-> x < y.
Proof. unfold Qlt_bool, Qlt. apply Z.ltb_lt. Qed.

Lemma Qlt_bool_false_iff (x y : Q) : Qlt_bool x y = false <-> y <= x.
Proof.
  unfold Qlt_bool, Qle. rewrite Z.ltb_ge. reflexivity.
Qed.

Lemma py_div_ok (x y : Q) : ~ y == 0 -> py_div x y = inr (x / y).
Proof.
  intros Hy. unfold py_div.
  destruct (Qeq_bool y 0) eqn:E; [|reflexivity].
  apply Qeq_bool_iff in E. contradiction.
Qed.

Lemma py_div_zero (x y : Q) : y == 0 -> py_div x y = inl ZeroDivisionError.
Proof.
  intros Hy. unfold py_div. apply Qeq_bool_iff in Hy. now rewrite Hy.
Qed.

(** ** The sampler *)

Lemma simulate_duration_draws (t : Task) (g : Random) :
  draws (simulate_duration t g).2 = draws g.
Proof.
  unfold simulate_duration, random_uniform, random_random.
  repeat (case_match; simpl); reflexivity.
Qed.

Lemma simulate_duration_consumed (t : Task) (g : Random) :
  (consumed g <= consumed (simulate_duration t g).2 <= consumed g + 2)%nat.
Proof.
  unfold simulate_duration, random_uniform, random_random.
  repeat (case_match; simpl); lia.
Qed.

(** A value-adding task, or one whose [delay_factor] is not positive, takes
    the first branch: nothing is drawn. *)
Lemma simulate_duration_fixed (t : Task) (g : Random) :
  value_added t = true \/ delay_factor t <= 0 ->
  simulate_duration t g = (base_duration t + 0, g).
Proof.
  intros H. unfold simulate_duration.
  destruct H as [-> | H]; [reflexivity|].
  apply Qlt_bool_false_iff in H. rewrite H, andb_false_r. reflexivity.
Qed.

Lemma simulate_duration_delayed (t : Task) (g : Random) :
  value_added t = false -> 0 < delay_factor t ->
  draws g (consumed g) < delay_probability t ->
  simulate_duration t g =
    (base_duration t + (0 + (delay_factor t - 0) * draws g (S (consumed g))),
     mkRandom (draws g) (S (S (consumed g)))).
Proof.
  intros Hva Hdf Hu. unfold simulate_duration.
  apply Qlt_bool_iff in Hdf, Hu.
  rewrite Hva, Hdf. simpl. rewrite Hu. reflexivity.
Qed.

Lemma simulate_duration_no_delay (t : Task) (g : Random) :
  value_added t = false -> 0 < delay_factor t ->
  ~ draws g (consumed g) < delay_probability t ->
  simulate_duration t g = (base_duration t + 0, mkRandom (draws g) (S (consumed g))).
Proof.
  intros Hva Hdf Hu. unfold simulate_duration.
  apply Qlt_bool_iff in Hdf. rewrite Hva, Hdf. simpl.
  destruct (Qlt_bool (draws g (consumed g)) (delay_probability t)) eqn:E;
    [|reflexivity].
  apply Qlt_bool_iff in E. contradiction.
Qed.

(** The delay is never negative when the generator is well behaved. *)
Lemma simulate_duration_ge_base (t : Task) (g : Random) :
  unit_draws g -> base_duration t <= (simulate_duration t g).1.
Proof.
  intros Hg. unfold simulate_duration.
  destruct (negb (value_added t) && Qlt_bool 0 (delay_factor t)) eqn:E; simpl.
  - apply andb_prop in E as [_ Hdf]. apply Qlt_bool_iff in Hdf.
    destruct (Qlt_bool _ _); simpl; [|lra].
    destruct (Hg (S (consumed g))) as [Hlo _].
    assert (0 <= delay_factor t * draws g (S (consumed g))) by (apply Qmult_le_0_compat; lra).
    lra.
  - lra.
Qed.

(** ** Dictionaries *)

Section Dict.
Context {V : Type}.
Implicit Types (d : dict V) (k : string) (v : V).

Lemma dict_get_set_eq d k v : dict_get (dict_set d k v) k = Some v.
Proof.
  induction d as [|[k' v'] d IH]; simpl.
  - by rewrite decide_True.
  - destruct (decide (k' = k)) as [->|Hne]; simpl.
    + by rewrite decide_True.
    + by rewrite decide_False.
Qed.

Lemma dict_get_set_ne d k k' v :
  k <> k' -> dict_get (dict_set d k v) k' = dict_get d k'.
Proof.
  intros Hne. induction d as [|[k0 v0] d IH]; simpl.
  - by rewrite decide_False.
  - destruct (decide (k0 = k)) as [->|Hk]; simpl.
    + by rewrite !decide_False.
    + by rewrite IH.
Qed.

Lemma dict_get_None d k : dict_get d k = None <-> k ∉ keys d.
Proof.
  induction d as [|[k' v'] d IH]; simpl.
  - split; [intros _; apply not_elem_of_nil | done].
  - rewrite not_elem_of_cons. destruct (decide (k' = k)) as [->|Hne].
    + split; [done | intros [? _]; done].
    + rewrite IH. split; [by intros ?; split | by intros [_ ?]].
Qed.

Lemma dict_get_is_Some d k : is_Some (dict_get d k) <-> k ∈ keys d.
Proof.
  rewrite <- not_eq_None_Some, dict_get_None.
  split; [apply dec_stable | auto].
Qed.

Lemma dict_set_fresh d k v : k ∉ keys d -> dict_set d k v = d ++ [(k, v)].
Proof.
  induction d as [|[k' v'] d IH]; simpl; [done|].
  rewrite not_elem_of_cons. intros [Hne Hk].
  rewrite decide_False by done. by rewrite IH.
Qed.

Lemma keys_set_fresh d k v : k ∉ keys d -> keys (dict_set d k v) = keys d ++ [k].
Proof.
  intros Hk. rewrite dict_set_fresh by done. unfold keys. by rewrite map_app.
Qed.

Lemma dict_mem_true d k : dict_mem d k = true <-> k ∈ keys d.
Proof.
  unfold dict_mem. rewrite bool_decide_eq_true. apply dict_get_is_Some.
Qed.

Lemma dict_item_Some d k v : dict_get d k = Some v -> dict_item d k = inr v.
Proof. unfold dict_item. by intros ->. Qed.
End Dict.

(** ** [max] and [min] *)

Lemma fold_max_spec (xs : list Q) (x : Q) :
  is_max_of (fold_left (fun m y => if Qlt_bool m y then y else m) xs x) (x :: xs).
Proof.
  revert x. induction xs as [|y xs IH]; intros x; simpl.
  - split; [apply list_elem_of_here|].
    intros z Hz. apply list_elem_of_singleton in Hz as ->. lra.
  - destruct (Qlt_bool x y) eqn:E.
    + apply Qlt_bool_iff in E. destruct (IH y) as [Hin Hmax]. split.
      * by apply list_elem_of_further.
      * intros z Hz. apply elem_of_cons in Hz as [->|Hz]; [|by apply Hmax].
        specialize (Hmax y (list_elem_of_here _ _)). lra.
    + apply Qlt_bool_false_iff in E. destruct (IH x) as [Hin Hmax]. split.
      * apply elem_of_cons in Hin as [Hin|Hin];
          [rewrite Hin; apply list_elem_of_here
          |by do 2 apply list_elem_of_further].
      * intros z Hz. apply elem_of_cons in Hz as [->|Hz].
        { apply Hmax, list_elem_of_here. }
        apply elem_of_cons in Hz as [->|Hz].
        { specialize (Hmax x (list_elem_of_here _ _)). lra. }
        by apply Hmax, list_elem_of_further.
Qed.

Lemma fold_min_spec (xs : list Q) (x : Q) :
  is_min_of (fold_left (fun m y => if Qlt_bool y m then y else m) xs x) (x :: xs).
Proof.
  revert x. induction xs as [|y xs IH]; intros x; simpl.
  - split; [apply list_elem_of_here|].
    intros z Hz. apply list_elem_of_singleton in Hz as ->. lra.
  - destruct (Qlt_bool y x) eqn:E.
    + apply Qlt_bool_iff in E. destruct (IH y) as [Hin Hmin]. split.
      * by apply list_elem_of_further.
      * intros z Hz. apply elem_of_cons in Hz as [->|Hz]; [|by apply Hmin].
        specialize (Hmin y (list_elem_of_here _ _)). lra.
    + apply Qlt_bool_false_iff in E. destruct (IH x) as [Hin Hmin]. split.
      * apply elem_of_cons in Hin as [Hin|Hin];
          [rewrite Hin; apply list_elem_of_here
          |by do 2 apply list_elem_of_further].
      * intros z Hz. apply elem_of_cons in Hz as [->|Hz].
        { apply Hmin, list_elem_of_here. }
        apply elem_of_cons in Hz as [->|Hz].
        { specialize (Hmin x (list_elem_of_here _ _)). lra. }
        by apply Hmin, list_elem_of_further.
Qed.

Lemma py_max_spec (xs : list Q) (m : Q) : py_max xs = inr m -> is_max_of m xs.
Proof.
  destruct xs as [|x xs]; simpl; [done|].
  intros [= <-]. apply fold_max_spec.
Qed.

Lemma py_min_spec (xs : list Q) (m : Q) : py_min xs = inr m -> is_min_of m xs.
Proof.
  destruct xs as [|x xs]; simpl; [done|].
  intros [= <-]. apply fold_min_spec.
Qed.

Lemma py_max_nonempty (xs : list Q) : xs <> [] -> exists m, py_max xs = inr m.
Proof. destruct xs; [done|]. intros _. simpl. eauto. Qed.

Lemma py_min_nonempty (xs : list Q) : xs <> [] -> exists m, py_min xs = inr m.
Proof. destruct xs; [done|]. intros _. simpl. eauto. Qed.

(** ** The scheduling loop *)

Lemma dep_finishes_ext (s1 s2 : dict ScheduleEntry) (deps : list string) :
  (forall d, d ∈ deps -> dict_get s1 d = dict_get s2 d) ->
  dep_finishes s1 deps = dep_finishes s2 deps.
Proof.
  induction deps as [|d deps IH]; intros H; simpl; [done|].
  unfold dict_item. rewrite (H d) by apply list_elem_of_here.
  rewrite IH; [done|]. intros d' Hd'. by apply H, list_elem_of_further.
Qed.

Lemma start_of_ext (s1 s2 : dict ScheduleEntry) (deps : list string) :
  (forall d, d ∈ deps -> dict_get s1 d = dict_get s2 d) ->
  start_of s1 deps = start_of s2 deps.
Proof.
  intros H. destruct deps as [|d deps]; [done|].
  unfold start_of. by rewrite (dep_finishes_ext s1 s2).
Qed.

Lemma dep_finishes_inv (s : dict ScheduleEntry) (deps : list string) (fs : list Q) :
  dep_finishes s deps = inr fs -> Forall2 (finish_in s) deps fs.
Proof.
  revert fs. induction deps as [|d deps IH]; intros fs; simpl.
  - intros [= <-]. constructor.
  - unfold dict_item. destruct (dict_get s d) as [e|] eqn:E; simpl; [|done].
    destruct (dep_finishes s deps) as [err|fs']; simpl; [done|].
    intros [= <-]. constructor; [by exists e | by apply IH].
Qed.

Lemma dep_finishes_ok (s : dict ScheduleEntry) (deps : list string) :
  (forall d, d ∈ deps -> d ∈ keys s) ->
  exists fs, dep_finishes s deps = inr fs /\ length fs = length deps.
Proof.
  induction deps as [|d deps IH]; intros H; simpl; [by exists []|].
  destruct (proj2 (dict_get_is_Some s d) (H d (list_elem_of_here _ _))) as [e He].
  rewrite (dict_item_Some _ _ _ He). simpl.
  destruct IH as (fs & -> & Hlen).
  { intros d' Hd'. by apply H, list_elem_of_further. }
  simpl. exists (finish_time e :: fs). simpl. by rewrite Hlen.
Qed.

Lemma start_of_ok (s : dict ScheduleEntry) (deps : list string) :
  (forall d, d ∈ deps -> d ∈ keys s) -> exists x, start_of s deps = inr x.
Proof.
  intros H. destruct deps as [|d deps]; [by exists 0|].
  unfold start_of. destruct (dep_finishes_ok s (d :: deps) H) as (fs & -> & Hlen).
  simpl. apply py_max_nonempty. by destruct fs.
Qed.

(** The start time computed at lines 81-84, in the words of the
    specification: [0] without dependencies, otherwise a maximum of the
    finish times recorded for the dependencies. *)
Lemma start_of_spec (s : dict ScheduleEntry) (deps : list string) (x : Q) :
  start_of s deps = inr x ->
  (deps = [] -> x = 0) /\
  (deps <> [] -> exists fs, Forall2 (finish_in s) deps fs /\ is_max_of x fs).
Proof.
  intros H. split.
  - intros ->. simpl in H. by injection H.
  - intros Hne. destruct deps as [|d deps]; [done|].
    unfold start_of in H.
    destruct (dep_finishes s (d :: deps)) as [err|fs] eqn:E; simpl in H; [done|].
    exists fs. split; [by apply dep_finishes_inv | by apply py_max_spec].
Qed.

Lemma deps_before_cons (earlier : list string) (t : Task) (rest : list Task) :
  deps_before earlier (t :: rest) = true <->
  (forall d, d ∈ dependencies t -> d ∈ earlier) /\
  deps_before (earlier ++ [name t]) rest = true.
Proof.
  simpl. rewrite andb_true_iff, forallb_forall.
  split; intros [H1 H2]; split; try done.
  - intros d Hd. apply list_elem_of_In in Hd.
    eapply bool_decide_eq_true_1. by apply H1.
  - intros d Hd. apply list_elem_of_In in Hd.
    apply bool_decide_eq_true_2. by apply H1.
Qed.

(** The loop of lines 80-87 on an order that lists every task once and
    after its dependencies: it never fails, appends one entry per task,
    leaves earlier entries alone, and every entry satisfies [entry_ok] on
    the final schedule, with a duration sampled from the generator. *)
Lemma schedule_loop_inv (order : list Task) :
  forall (schedule : dict ScheduleEntry) (g : Random),
  NoDup (map name order) ->
  (forall t, t ∈ order -> name t ∉ keys schedule) ->
  deps_before (keys schedule) order = true ->
  exists schedule' g',
    schedule_loop order schedule g = inr (schedule', g') /\
    keys schedule' = keys schedule ++ map name order /\
    draws g' = draws g /\
    (consumed g <= consumed g' <= consumed g + 2 * length order)%nat /\
    (forall k, k ∈ keys schedule -> dict_get schedule' k = dict_get schedule k) /\
    (forall t, t ∈ order ->
       exists e, dict_get schedule' (name t) = Some e /\
         entry_ok schedule' t e /\
         exists g_t, draws g_t = draws g /\
           real_duration e = (simulate_duration t g_t).1).
Proof.
  induction order as [|t rest IH]; intros schedule g Hnd Hfresh Hdeps.
  - exists schedule, g. simpl. rewrite app_nil_r.
    repeat split; try done; try lia. intros t Ht. by apply elem_of_nil in Ht.
  - apply deps_before_cons in Hdeps as [Hdt Hrest].
    simpl in Hnd. apply NoDup_cons in Hnd as [Hnt Hnd].
    assert (Hkt : name t ∉ keys schedule) by apply Hfresh, list_elem_of_here.
    destruct (start_of_ok schedule (dependencies t) Hdt) as [start Hstart].
    simpl. rewrite Hstart. simpl.
    destruct (simulate_duration t g) as [duration g1] eqn:Hsim.
    set (e := mkEntry start (start + duration) duration (value_added t) (base_duration t)).
    set (schedule1 := dict_set schedule (name t) e).
    assert (Hk1 : keys schedule1 = keys schedule ++ [name t])
      by by apply keys_set_fresh.
    destruct (IH schedule1 g1) as (schedule' & g' & Hrun & Hkeys & Hdraws & Hcons & Hkeep & Hall).
    { done. }
    { intros t' Ht'. rewrite Hk1. apply not_elem_of_app. split.
      - by apply Hfresh, list_elem_of_further.
      - rewrite list_elem_of_singleton. intros Heq. apply Hnt. rewrite <- Heq.
        by apply list_elem_of_fmap_2. }
    { by rewrite Hk1. }
    assert (Hg1 : draws g1 = draws g).
    { pose proof (simulate_duration_draws t g) as H. by rewrite Hsim in H. }
    assert (Hc1 : (consumed g <= consumed g1 <= consumed g + 2)%nat).
    { pose proof (simulate_duration_consumed t g) as H. by rewrite Hsim in H. }
    exists schedule', g'. split; [done|]. split.
    { rewrite Hkeys, Hk1. by rewrite <- app_assoc. }
    split; [congruence|]. split; [simpl in *; lia|]. split.
    { intros k Hk. rewrite Hkeep.
      - unfold schedule1. apply dict_get_set_ne. intros <-. done.
      - rewrite Hk1. apply elem_of_app. by left. }
    intros t' Ht'. apply elem_of_cons in Ht' as [->|Ht'].
    + exists e. split.
      { rewrite Hkeep.
        - apply dict_get_set_eq.
        - rewrite Hk1. apply elem_of_app. right. apply list_elem_of_here. }
      split.
      { repeat split; try done. simpl.
        rewrite <- Hstart. apply start_of_ext. intros d Hd.
        rewrite Hkeep.
        - unfold schedule1. apply dict_get_set_ne. intros <-. by apply Hkt, Hdt.
        - rewrite Hk1. apply elem_of_app. left. by apply Hdt. }
      exists g. split; [done|]. by rewrite Hsim.
    + destruct (Hall t' Ht') as (e' & He' & Hok & g_t & Hgt & Hdur).
      exists e'. split; [done|]. split; [done|].
      exists g_t. split; [congruence|done].
Qed.

(** ** The built-in project *)

Lemma tasks_order (li : Q) :
  topological_order recursion_limit (tasks li) = inr (tasks li).
Proof. vm_compute. reflexivity. Qed.

Lemma tasks_names (li : Q) :
  map name (tasks li) =
  ["Planejamento"; "Licenciamento"; "Mobilização"; "Escavação"; "Estrutura";
   "Alvenaria"; "Instalações"; "Acabamentos"; "Inspeção"].
Proof. reflexivity. Qed.

Lemma tasks_NoDup (li : Q) : NoDup (map name (tasks li)).
Proof. rewrite tasks_names. compute_done. Qed.

Lemma tasks_deps_before (li : Q) : deps_before [] (tasks li) = true.
Proof. vm_compute. reflexivity. Qed.

Lemma tasks_value_added (li : Q) : total_value_added_of (tasks li) = 105.
Proof. reflexivity. Qed.

(** A run in which both delays occur: Licenciamento takes [10 + 5/2] days,
    Mobilização [5 + 3/2], and the project [114] days. *)
Example simulate_project_half :
  exists g', simulate_project false 0 (constant_random (1 # 2))
             = inr (Ret3 (456 # 4) 105 (42000 # 456), g')
          /\ consumed g' = 4%nat.
Proof. eexists. split; [vm_compute; reflexivity | reflexivity]. Qed.

(** A run in which the first value, [9/10], is not below either
    probability: two values are drawn, no delay occurs. *)
Example simulate_project_no_delay :
  exists g', simulate_project false 0 (constant_random (9 # 10))
             = inr (Ret3 110 105 (10500 # 110), g')
          /\ consumed g' = 2%nat.
Proof. eexists. split; [vm_compute; reflexivity | reflexivity]. Qed.

(** Three runs: [225/2], [110] and [110] days. *)
Example run_monte_carlo_three :
  exists rep g',
    run_monte_carlo_simulation 3 0 (list_random [1 # 2; 1 # 2; 9 # 10; 9 # 10])
      = inr (rep, g') /\
    min_duration rep == 110 /\ max_duration rep == 225 # 2.
Proof. eexists _, _. split; [vm_compute; reflexivity|]. by vm_compute. Qed.

(** The schedule of the built-in project: the loop never fails, whatever
    the generator returns. *)
Lemma reference_schedule (li : Q) (g : Random) :
  exists schedule g',
    compute_schedule recursion_limit (tasks li) g = inr (schedule, g') /\
    keys schedule = map name (tasks li) /\
    draws g' = draws g /\
    (consumed g <= consumed g')%nat /\
    forall t, t ∈ tasks li ->
      exists e, dict_get schedule (name t) = Some e /\
        entry_ok schedule t e /\
        exists g_t, draws g_t = draws g /\
          real_duration e = (simulate_duration t g_t).1.
Proof.
  destruct (schedule_loop_inv (tasks li) [] g)
    as (schedule & g' & Hrun & Hkeys & Hdraws & Hcons & _ & Hall).
  - apply tasks_NoDup.
  - intros t _. apply not_elem_of_nil.
  - apply tasks_deps_before.
  - exists schedule, g'. unfold compute_schedule. rewrite tasks_order. simpl.
    repeat split; try done. lia.
Qed.

Lemma unit_draws_same (g1 g2 : Random) :
  draws g1 = draws g2 -> unit_draws g2 -> unit_draws g1.
Proof. unfold unit_draws. by intros ->. Qed.

(** A task does not finish before a dependency has finished and its own
    base duration has passed. *)
Lemma entry_finish_ge (schedule : dict ScheduleEntry) (t : Task)
    (e e_d : ScheduleEntry) (d : string) :
  entry_ok schedule t e ->
  base_duration t <= real_duration e ->
  d ∈ dependencies t ->
  dict_get schedule d = Some e_d ->
  finish_time e_d + base_duration t <= finish_time e.
Proof.
  intros (Hfin & Hstart & _ & _) Hdur Hd Hed.
  apply start_of_spec in Hstart as [_ Hmax].
  destruct Hmax as (fs & Hfs & _ & Hmax).
  { intros Heq. rewrite Heq in Hd. by apply elem_of_nil in Hd. }
  assert (Hle : finish_time e_d <= start_time e).
  { apply Hmax. clear -Hfs Hd Hed.
    induction Hfs as [|d' f deps fs (e' & He' & Hf) Hrest IH].
    - by apply elem_of_nil in Hd.
    - apply elem_of_cons in Hd as [->|Hd].
      + rewrite Hed in He'. injection He' as <-. rewrite Hf. apply list_elem_of_here.
      + by apply list_elem_of_further, IH. }
  rewrite Hfin. lra.
Qed.

Lemma entry_finish_ge_base (schedule : dict ScheduleEntry) (t : Task)
    (e : ScheduleEntry) :
  entry_ok schedule t e ->
  base_duration t <= real_duration e ->
  dependencies t = [] ->
  base_duration t <= finish_time e.
Proof.
  intros (Hfin & Hstart & _ & _) Hdur Hd.
  apply start_of_spec in Hstart as [H0 _]. rewrite Hfin, (H0 Hd). lra.
Qed.

(** The entry of the [i]-th task of the built-in project. *)
Ltac task_entry Hall li i e He Hok Hdur :=
  let t := eval cbv beta iota delta [nth tasks] in
             (nth i (tasks li) (mkTask "" 0 true 0 0 [])) in
  let Hin := fresh "Hin" in
  assert (Hin : t ∈ tasks li)
    by (apply (list_elem_of_lookup_2 _ i); reflexivity);
  destruct (Hall _ Hin) as (e & He & Hok & Hdur);
  simpl in He; clear Hin.

(** One step along a chain of dependencies. *)
Ltac chain_step Hok Hdur Hdep :=
  let H := fresh "Hstep" in
  pose proof (fun Hd => entry_finish_ge _ _ _ _ _ Hok Hdur Hd Hdep) as H;
  lapply H; [clear H; intros H; simpl in H
            | simpl; rewrite !elem_of_cons; auto].

(** A run of the built-in project with a well-behaved generator: every
    realized duration is at least the base duration, the last task finishes
    no earlier than day 110, and the division of line 91 is defined. *)
Lemma reference_run (li : Q) (g : Random) :
  unit_draws g ->
  exists schedule g' td,
    compute_schedule recursion_limit (tasks li) g = inr (schedule, g') /\
    total_duration_of schedule = inr td /\
    finish_in schedule "Inspeção" td /\
    110 <= td /\
    (forall t, t ∈ tasks li ->
       exists e, dict_get schedule (name t) = Some e /\
         entry_ok schedule t e /\ base_duration t <= real_duration e) /\
    forall rs, simulate_project rs li g =
      inr (if rs : bool
           then Ret4 schedule td 105 (100 * (105 / td))
           else Ret3 td 105 (100 * (105 / td)), g').
Proof.
  intros Hg.
  destruct (reference_schedule li g) as (schedule & g' & Hrun & Hkeys & _ & _ & Hall0).
  assert (Hall : forall t, t ∈ tasks li ->
            exists e, dict_get schedule (name t) = Some e /\
              entry_ok schedule t e /\ base_duration t <= real_duration e).
  { intros t Ht. destruct (Hall0 t Ht) as (e & He & Hok & g_t & Hgt & Hdur).
    exists e. repeat split; try done; try apply Hok.
    rewrite Hdur. apply simulate_duration_ge_base. by apply (unit_draws_same _ g). }
  clear Hall0.
  task_entry Hall li 0%nat e0 He0 Hok0 Hdur0.
  task_entry Hall li 1%nat e1 He1 Hok1 Hdur1.
  task_entry Hall li 2%nat e2 He2 Hok2 Hdur2.
  task_entry Hall li 3%nat e3 He3 Hok3 Hdur3.
  task_entry Hall li 4%nat e4 He4 Hok4 Hdur4.
  task_entry Hall li 5%nat e5 He5 Hok5 Hdur5.
  task_entry Hall li 7%nat e7 He7 Hok7 Hdur7.
  task_entry Hall li 8%nat e8 He8 Hok8 Hdur8.
  pose proof (entry_finish_ge_base _ _ _ Hok0 Hdur0 eq_refl) as Hstep0.
  simpl in Hstep0.
  chain_step Hok1 Hdur1 He0. chain_step Hok2 Hdur2 He1.
  chain_step Hok3 Hdur3 He2. chain_step Hok4 Hdur4 He3.
  chain_step Hok5 Hdur5 He4. chain_step Hok7 Hdur7 He5.
  chain_step Hok8 Hdur8 He7.
  assert (Hge : 110 <= finish_time e8) by lra.
  assert (Htd : total_duration_of schedule = inr (finish_time e8)).
  { unfold total_duration_of.
    assert (dict_mem schedule "Inspeção" = true) as ->.
    { apply dict_mem_true. rewrite Hkeys, tasks_names. compute_done. }
    by rewrite (dict_item_Some _ _ _ He8). }
  exists schedule, g', (finish_time e8).
  split; [done|]. split; [done|]. split; [by exists e8|].
  split; [done|]. split; [done|].
  intros rs. unfold simulate_project, simulate_tasks.
  rewrite Hrun. simpl. rewrite Htd. simpl. rewrite tasks_value_added.
  rewrite py_div_ok by lra. simpl. by destruct rs.
Qed.


(** * Properties of the sampler and of a run *)

(** C2.  [Task.simulate_duration] returns exactly [base_duration] and leaves
    the generator untouched when the task adds value or its [delay_factor]
    is not positive.  Otherwise it draws one value [u1] of [[0, 1)]; when
    [u1 < delay_probability] it draws a second value and adds a delay of
    [[0, delay_factor)] obtained from it by [random.uniform(0, delay_factor)];
    when not, the delay is zero and only one value has been drawn. *)
Theorem C2_simulate_duration (t : Task) (g : Random) :
  unit_draws g ->
  let u1 := draws g (consumed g) in
  let u2 := draws g (S (consumed g)) in
  (value_added t = true \/ delay_factor t <= 0 ->
     (simulate_duration t g).1 == base_duration t /\
     (simulate_duration t g).2 = g) /\
  (value_added t = false -> 0 < delay_factor t ->
     (0 <= u1 /\ u1 < 1) /\
     (u1 < delay_probability t ->
        exists delay,
          (random_uniform 0 (delay_factor t) (random_random g).2).1 = delay /\
          0 <= delay /\ delay < delay_factor t /\
          delay == delay_factor t * u2 /\
          (simulate_duration t g).1 = base_duration t + delay /\
          (simulate_duration t g).2 = mkRandom (draws g) (2 + consumed g)) /\
     (~ u1 < delay_probability t ->
        (simulate_duration t g).1 == base_duration t /\
        (simulate_duration t g).2 = mkRandom (draws g) (1 + consumed g))).
Proof.
  intros Hg u1 u2. split.
  - intros H. rewrite (simulate_duration_fixed t g H). simpl. split; [lra|done].
  - intros Hva Hdf. split; [apply Hg|]. split.
    + intros Hu. rewrite (simulate_duration_delayed t g Hva Hdf Hu). simpl.
      exists (0 + (delay_factor t - 0) * u2).
      destruct (Hg (S (consumed g))) as [Hlo Hhi]. fold u2 in Hlo, Hhi.
      assert (0 <= delay_factor t * u2) by (apply Qmult_le_0_compat; lra).
      assert (delay_factor t * u2 < delay_factor t * 1)
        by (apply Qmult_lt_l; lra).
      repeat split; try done; try lra.
    + intros Hu. rewrite (simulate_duration_no_delay t g Hva Hdf Hu). simpl.
      split; [lra|done].
Qed.

Lemma C2_simulate_duration_witness :
  unit_draws (constant_random (1 # 2)) /\
  (simulate_duration (mkTask "Licenciamento" 10 false 5 (8 # 10) ["Planejamento"])
     (constant_random (1 # 2))).1 = 10 + (0 + (5 - 0) * (1 # 2)).
Proof.
  assert (Hg : unit_draws (constant_random (1 # 2))).
  { intros k. split; [discriminate | reflexivity]. }
  split; [exact Hg|].
  destruct (C2_simulate_duration
              (mkTask "Licenciamento" 10 false 5 (8 # 10) ["Planejamento"])
              (constant_random (1 # 2)) Hg) as [_ Hrand].
  destruct (Hrand eq_refl eq_refl) as (_ & Hdelay & _).
  destruct (Hdelay eq_refl) as (delay & Hd & _ & _ & _ & Hres & _).
  rewrite Hres, <- Hd. reflexivity.
Defined.

(** What a returning call of [simulate_project] has computed. *)
Lemma simulate_project_inv (rs : bool) (li : Q) (g : Random) (r : retval) (g' : Random) :
  simulate_project rs li g = inr (r, g') ->
  exists schedule td,
    compute_schedule recursion_limit (tasks li) g = inr (schedule, g') /\
    total_duration_of schedule = inr td /\
    ~ td == 0 /\
    r = (if rs then Ret4 schedule td 105 (100 * (105 / td))
         else Ret3 td 105 (100 * (105 / td))).
Proof.
  unfold simulate_project, simulate_tasks.
  destruct (compute_schedule _ _ _) as [err|[schedule g1]]; simpl; [done|].
  destruct (total_duration_of schedule) as [err|td] eqn:Htd; simpl; [done|].
  rewrite tasks_value_added. unfold py_div.
  destruct (Qeq_bool td 0) eqn:E; simpl; [done|].
  intros H. exists schedule, td.
  assert (~ td == 0).
  { intros Hz. apply Qeq_bool_iff in Hz. congruence. }
  destruct rs; injection H as <- <-; done.
Qed.

(** C1.  In a run of [simulate_project], the schedule holds one entry per
    task; the entry of each task satisfies [finish = start + real_duration],
    its start is [0] when the task has no dependencies and otherwise a
    maximum of the finish times recorded for its dependencies, and its
    duration is a value of [Task.simulate_duration]. *)
Theorem C1_schedule_entry_invariant (li : Q) (g : Random) :
  exists schedule g',
    compute_schedule recursion_limit (tasks li) g = inr (schedule, g') /\
    (forall r g'', simulate_project true li g = inr (r, g'') ->
       ret_schedule r = Some schedule) /\
    keys schedule = map name (tasks li) /\
    forall t, t ∈ tasks li ->
      exists e, dict_get schedule (name t) = Some e /\
        finish_time e = start_time e + real_duration e /\
        (dependencies t = [] -> start_time e = 0) /\
        (dependencies t <> [] ->
           exists fs, Forall2 (finish_in schedule) (dependencies t) fs /\
             is_max_of (start_time e) fs) /\
        exists g_t, draws g_t = draws g /\
          real_duration e = (simulate_duration t g_t).1.
Proof.
  destruct (reference_schedule li g) as (schedule & g' & Hrun & Hkeys & _ & _ & Hall).
  exists schedule, g'. split; [done|]. split.
  { intros r g'' Hsim. apply simulate_project_inv in Hsim as (s & td & Hs & _ & _ & ->).
    rewrite Hrun in Hs. by injection Hs as <- <-. }
  split; [done|].
  intros t Ht. destruct (Hall t Ht) as (e & He & (Hfin & Hstart & _) & Hsample).
  exists e. split; [done|]. split; [done|].
  apply start_of_spec in Hstart as [H0 Hmax]. done.
Qed.

(** C3.  [total_value_added] is the sum of the base durations of the
    value-adding tasks, [20 + 15 + 25 + 20 + 10 + 10 + 5 = 105], in every
    run, whatever [lean_improvement] and the generator are. *)
Theorem C3_total_value_added (rs : bool) (li : Q) (g : Random) :
  unit_draws g ->
  map base_duration (filter (fun t => value_added t = true) (tasks li))
    = [20; 15; 25; 20; 10; 10; 5] /\
  total_value_added_of (tasks li) = 20 + 15 + 25 + 20 + 10 + 10 + 5 /\
  (exists r g', simulate_project rs li g = inr (r, g') /\
     ret_total_value_added r = total_value_added_of (tasks li) /\
     ret_total_value_added r = 105) /\
  (forall rs2 li2 g2 r2 g2', simulate_project rs2 li2 g2 = inr (r2, g2') ->
     ret_total_value_added r2 = 105).
Proof.
  intros Hg. split; [reflexivity|]. split; [reflexivity|]. split.
  - destruct (reference_run li g Hg) as (schedule & g' & td & _ & _ & _ & _ & _ & Hsim).
    eexists _, g'. split; [apply Hsim|]. by destruct rs.
  - intros rs2 li2 g2 r2 g2' Hsim.
    apply simulate_project_inv in Hsim as (s & td & _ & _ & _ & ->).
    by destruct rs2.
Qed.

Lemma C3_total_value_added_witness :
  unit_draws (constant_random (1 # 2)) /\
  exists r g', simulate_project false 0 (constant_random (1 # 2)) = inr (r, g') /\
    ret_total_value_added r = 105.
Proof.
  assert (Hg : unit_draws (constant_random (1 # 2))).
  { intros k. split; [discriminate | reflexivity]. }
  split; [exact Hg|].
  destruct (C3_total_value_added false 0 (constant_random (1 # 2)) Hg)
    as (_ & _ & (r & g' & Hsim & _ & Hval) & _).
  exists r, g'. split; [exact Hsim | exact Hval].
Defined.

(** C4.  With [lean_improvement = 1] the [delay_factor] of both
    non-value-adding tasks is zero, so they are never delayed; the run draws
    nothing from the generator and [total_duration] is [110], the critical
    path of the project, for every generator. *)
Theorem C4_lean_improvement_one (rs : bool) (g : Random) :
  (forall t, t ∈ tasks 1 -> value_added t = false ->
     delay_factor t == 0 /\
     forall g0, simulate_duration t g0 = (base_duration t + 0, g0)) /\
  critical_path (tasks 1) = 110 /\
  exists r, simulate_project rs 1 g = inr (r, g) /\
    ret_total_duration r = 110 /\
    ret_total_duration r = critical_path (tasks 1).
Proof.
  split; [|split].
  - intros t Ht Hva. unfold tasks in Ht.
    repeat (apply elem_of_cons in Ht as [->|Ht]; [try discriminate Hva|]).
    + split; [reflexivity|]. intros g0. reflexivity.
    + split; [reflexivity|]. intros g0. reflexivity.
    + by apply elem_of_nil in Ht.
  - vm_compute. reflexivity.
  - destruct rs; eexists; (split; [vm_compute; reflexivity|]);
      split; vm_compute; reflexivity.
Qed.





(** C10.  With [lean_improvement] in [[0, 1]] and a generator whose values
    lie in [[0, 1)], every realized duration is at least the base duration
    of its task, [total_duration] is at least the critical path of the
    project, [110], hence positive, and the division of line 91 does not
    raise: the call returns, with
    [efficiency = 100 * (total_value_added / total_duration)]. *)
Theorem C10_no_division_by_zero (rs : bool) (li : Q) (g : Random) :
  0 <= li /\ li <= 1 ->
  unit_draws g ->
  exists schedule r g',
    compute_schedule recursion_limit (tasks li) g = inr (schedule, g') /\
    simulate_project rs li g = inr (r, g') /\
    (forall t, t ∈ tasks li ->
       exists e, dict_get schedule (name t) = Some e /\
         base_duration t <= real_duration e) /\
    critical_path (tasks li) = 110 /\
    critical_path (tasks li) <= ret_total_duration r /\
    0 < ret_total_duration r /\
    py_div (ret_total_value_added r) (ret_total_duration r)
      = inr (ret_total_value_added r / ret_total_duration r) /\
    ret_efficiency r = 100 * (ret_total_value_added r / ret_total_duration r).
Proof.
  intros _ Hg.
  destruct (reference_run li g Hg) as (schedule & g' & td & Hrun & _ & _ & Hge & Hall & Hsim).
  eexists schedule, _, g'. split; [done|]. split; [apply Hsim|]. split.
  { intros t Ht. destruct (Hall t Ht) as (e & He & _ & Hdur). by exists e. }
  split; [vm_compute; reflexivity|].
  assert (Hcp : critical_path (tasks li) = 110) by (vm_compute; reflexivity).
  rewrite Hcp.
  destruct rs; simpl; (repeat split; [lra | lra | apply py_div_ok; lra]).
Qed.

Lemma C10_no_division_by_zero_witness :
  (0 <= 0 /\ 0 <= 1) /\
  unit_draws (constant_random (1 # 2)) /\
  exists r g',
    simulate_project false 0 (constant_random (1 # 2)) = inr (r, g') /\
    0 < ret_total_duration r.
Proof.
  assert (Hli : 0 <= 0 /\ 0 <= 1) by (split; discriminate).
  assert (Hg : unit_draws (constant_random (1 # 2))).
  { intros k. split; [discriminate | reflexivity]. }
  split; [exact Hli|]. split; [exact Hg|].
  destruct (C10_no_division_by_zero false 0 (constant_random (1 # 2)) Hli Hg)
    as (_ & r & g' & _ & Hsim & _ & _ & _ & Hpos & _).
  exists r, g'. split; [exact Hsim | exact Hpos].
Defined.

(** ** Monte Carlo *)

Lemma simulate_project_draws (rs : bool) (li : Q) (g : Random) (r : retval) (g' : Random) :
  simulate_project rs li g = inr (r, g') -> draws g' = draws g.
Proof.
  intros Hsim. apply simulate_project_inv in Hsim as (s & td & Hs & _).
  destruct (reference_schedule li g) as (s' & g1 & Hs' & _ & Hd & _).
  rewrite Hs in Hs'. by injection Hs' as -> ->.
Qed.

Lemma len_cons (x : Q) (xs : list Q) : len (x :: xs) == len xs + 1.
Proof.
  unfold len. simpl length. rewrite Nat2Z.inj_succ, <- Z.add_1_r.
  by rewrite inject_Z_plus.
Qed.

(** The running total of line 129 lies between [len * lo] and [len * hi]
    above its initial value when every summand lies in [[lo, hi]]. *)
Lemma fold_left_Qplus_bounds (xs : list Q) (lo hi : Q) :
  (forall y, y ∈ xs -> lo <= y /\ y <= hi) ->
  forall a, a + lo * len xs <= fold_left Qplus xs a /\
            fold_left Qplus xs a <= a + hi * len xs.
Proof.
  induction xs as [|x xs IH]; intros Hb a.
  - change (len []) with 0. simpl fold_left. lra.
  - simpl fold_left.
    destruct (Hb x (list_elem_of_here _ _)) as [Hlo Hhi].
    destruct (IH (fun y Hy => Hb y (list_elem_of_further _ _ _ Hy)) (a + x)) as [H1 H2].
    pose proof (len_cons x xs) as Hlen.
    assert (lo * len (x :: xs) == lo * len xs + lo) by (rewrite Hlen; ring).
    assert (hi * len (x :: xs) == hi * len xs + hi) by (rewrite Hlen; ring).
    lra.
Qed.

Lemma fold_left_Qplus_repeat (c : Q) (n : nat) (a : Q) :
  fold_left Qplus (repeat c n) a == a + c * inject_Z (Z.of_nat n).
Proof.
  revert a. induction n as [|n IH]; intros a.
  - simpl. ring.
  - simpl repeat. simpl fold_left. rewrite IH.
    rewrite Nat2Z.inj_succ, <- Z.add_1_r, inject_Z_plus. ring.
Qed.

(** The loop of lines 127-131 with a well-behaved generator: it never
    fails, and accumulates the totals of [n] successive runs. *)
Lemma monte_carlo_loop_ok (n : nat) (li : Q) :
  forall (total_d total_v : Q) (durs : list Q) (g : Random),
  unit_draws g ->
  exists ds g',
    monte_carlo_loop n li (total_d, total_v, durs) g
      = inr ((fold_left Qplus ds total_d,
              fold_left Qplus (repeat 105 n) total_v,
              durs ++ ds), g') /\
    length ds = n /\
    runs li g ds g' /\
    draws g' = draws g /\
    (forall d, d ∈ ds -> 110 <= d).
Proof.
  induction n as [|n IH]; intros total_d total_v durs g Hg.
  - exists [], g. simpl. rewrite app_nil_r. repeat split; try done.
    + constructor.
    + intros d Hd. by apply elem_of_nil in Hd.
  - destruct (reference_run li g Hg) as (s & g1 & td & _ & _ & _ & Hge & _ & Hsim).
    specialize (Hsim false).
    pose proof (simulate_project_draws _ _ _ _ _ Hsim) as Hd1.
    destruct (IH (total_d + td) (total_v + 105) (durs ++ [td]) g1)
      as (ds & g' & Hloop & Hlen & Hruns & Hd' & Hall).
    { by apply (unit_draws_same _ g). }
    exists (td :: ds), g'. simpl monte_carlo_loop. rewrite Hsim. simpl.
    rewrite Hloop, <- app_assoc. simpl.
    split; [done|]. split; [by rewrite Hlen|]. split.
    { by apply (runs_cons li g g1 g' _ ds Hsim). }
    split; [congruence|].
    intros d Hd. apply elem_of_cons in Hd as [->|Hd]; [done | by apply Hall].
Qed.

Lemma mean_between (xs : list Q) (lo hi n : Q) :
  0 < n -> len xs == n ->
  (forall y, y ∈ xs -> lo <= y /\ y <= hi) ->
  lo <= py_sum xs / n /\ py_sum xs / n <= hi.
Proof.
  intros Hn Hlen Hb. unfold py_sum.
  destruct (fold_left_Qplus_bounds xs lo hi Hb 0) as [H1 H2].
  rewrite Hlen in H1, H2. split.
  - apply Qle_shift_div_l; [done|]. lra.
  - apply Qle_shift_div_r; [done|]. lra.
Qed.

(** [run_monte_carlo_simulation] with a positive number of simulations and
    a well-behaved generator: the values it prints. *)
Lemma run_monte_carlo_ok (num : Z) (li : Q) (g : Random) :
  (0 < num)%Z -> unit_draws g ->
  exists ds g' rep,
    run_monte_carlo_simulation num li g = inr (rep, g') /\
    length ds = Z.to_nat num /\
    runs li g ds g' /\
    (forall d, d ∈ ds -> 110 <= d) /\
    report_simulations rep = num /\
    avg_duration rep = py_sum ds / inject_Z num /\
    avg_value_added rep == 105 /\
    report_efficiency rep = 100 * (avg_value_added rep / avg_duration rep) /\
    is_min_of (min_duration rep) ds /\
    is_max_of (max_duration rep) ds.
Proof.
  intros Hnum Hg.
  destruct (monte_carlo_loop_ok (Z.to_nat num) li 0 0 [] g Hg)
    as (ds & g' & Hloop & Hlen & Hruns & _ & Hall).
  assert (Hn : 0 < inject_Z num).
  { change 0 with (inject_Z 0). by rewrite <- Zlt_Qlt. }
  assert (Hlenq : len ds == inject_Z num).
  { unfold len. rewrite Hlen, Z2Nat.id by lia. reflexivity. }
  assert (Hne : ds <> []).
  { intros ->. simpl in Hlen. lia. }
  destruct (py_min_nonempty ds Hne) as [lo Hlo].
  destruct (py_max_nonempty ds Hne) as [hi Hhi].
  pose proof (py_min_spec _ _ Hlo) as Hmin.
  pose proof (py_max_spec _ _ Hhi) as Hmax.
  assert (Havg : 110 <= py_sum ds / inject_Z num).
  { apply (mean_between ds 110 hi (inject_Z num) Hn Hlenq).
    intros y Hy. split; [by apply Hall | by apply Hmax]. }
  pose proof (fold_left_Qplus_repeat 105 (Z.to_nat num) 0) as Hval.
  rewrite Z2Nat.id in Hval by lia.
  eexists ds, g', _. unfold run_monte_carlo_simulation.
  rewrite Hloop. simpl.
  rewrite (py_div_ok _ (inject_Z num)) by lra. simpl.
  rewrite (py_div_ok _ (inject_Z num)) by lra. simpl.
  rewrite py_div_ok by (unfold py_sum in Havg; lra). simpl.
  rewrite Hlo, Hhi. simpl. split; [reflexivity|]. simpl.
  repeat split; try done; try apply Hmin; try apply Hmax.
  rewrite Hval. field. lra.
Qed.

(** C9 (as the code behaves).  For a positive number of simulations the
    runner reports as minimum and maximum the least and the greatest of the
    observed total durations, so the minimum is at most the maximum and
    every observed duration lies between them; so does their mean taken in
    exact arithmetic.  The mean that the code reports is the rounded sum of
    line 129 divided at line 132, again rounded: it is one of the observed
    durations when there is a single run, and otherwise it can fall outside
    the two bounds by the rounding error. *)
Theorem C9_observed_bounds (num : Z) (li : Q) (g : Random) :
  (0 < num)%Z -> unit_draws g ->
  exists ds g' rep,
    run_monte_carlo_simulation num li g = inr (rep, g') /\
    runs li g ds g' /\
    is_min_of (min_duration rep) ds /\
    is_max_of (max_duration rep) ds /\
    min_duration rep <= max_duration rep /\
    (forall d, d ∈ ds -> min_duration rep <= d /\ d <= max_duration rep) /\
    (min_duration rep <= exact_mean ds /\ exact_mean ds <= max_duration rep) /\
    (num = 1%Z ->
       avg_duration rep == min_duration rep /\
       avg_duration rep == max_duration rep).
Proof.
  intros Hnum Hg.
  destruct (run_monte_carlo_ok num li g Hnum Hg)
    as (ds & g' & rep & Hrun & Hlen & Hruns & _ & _ & Havg & _ & _ & Hmin & Hmax).
  assert (Hn : 0 < inject_Z num).
  { change 0 with (inject_Z 0). by rewrite <- Zlt_Qlt. }
  assert (Hlenq : len ds = inject_Z num).
  { unfold len. by rewrite Hlen, Z2Nat.id by lia. }
  assert (Hb : forall d, d ∈ ds -> min_duration rep <= d /\ d <= max_duration rep).
  { intros d Hd. split; [by apply Hmin | by apply Hmax]. }
  exists ds, g', rep. split; [done|]. split; [done|].
  split; [done|]. split; [done|].
  split; [apply Hmax, Hmin|]. split; [done|]. split.
  - unfold exact_mean. rewrite Hlenq.
    apply (mean_between ds _ _ (inject_Z num) Hn); [by rewrite Hlenq | done].
  - intros ->. destruct ds as [|d [|d' ds]]; try discriminate Hlen.
    destruct Hmin as [Hlo _]. destruct Hmax as [Hhi _].
    apply list_elem_of_singleton in Hlo, Hhi.
    rewrite Havg, Hlo, Hhi. unfold py_sum. cbn [fold_left].
    assert (H1 : (0 + d) / inject_Z 1 == d) by (field; discriminate).
    by rewrite H1.
Qed.

Lemma C9_observed_bounds_witness :
  (0 < 3)%Z /\
  unit_draws (list_random [1 # 2; 1 # 2; 9 # 10; 9 # 10]) /\
  exists rep g',
    run_monte_carlo_simulation 3 0 (list_random [1 # 2; 1 # 2; 9 # 10; 9 # 10])
      = inr (rep, g') /\
    min_duration rep <= max_duration rep.
Proof.
  assert (Hn : (0 < 3)%Z) by reflexivity.
  assert (Hg : unit_draws (list_random [1 # 2; 1 # 2; 9 # 10; 9 # 10])).
  { intros k. simpl.
    do 4 (destruct k as [|k]; [split; [discriminate | reflexivity]|]).
    destruct k; split; (discriminate || reflexivity). }
  split; [exact Hn|]. split; [exact Hg|].
  destruct (C9_observed_bounds 3 0 (list_random [1 # 2; 1 # 2; 9 # 10; 9 # 10]) Hn Hg)
    as (ds & g' & rep & Hrun & _ & _ & _ & Hle & _).
  exists rep, g'. split; [exact Hrun | exact Hle].
Defined.

(** C9 as stated fails on the binary64 numbers that the code computes
    with.  Three runs with [lean_improvement = 0] in each of which the
    generator returns [0.5], [2^-47] and [0.75] (Licenciamento is delayed
    by [5 * 2^-47] days, Mobilização is not delayed) all take
    [110 + 2 * 2^-46] days, printed 110.00000000000003; their rounded sum
    divided by 3 is [110 + 3 * 2^-46], printed 110.00000000000004, which is
    above the maximum.  With [154 * 2^-53] for the second value the mean is
    below the minimum. *)
Lemma C9_counterexample :
  (forallb Binary64.unit_draw Binary64.late_run = true /\
   exists rep g',
     Binary64.run_monte_carlo_simulation 3 0%float Binary64.three_late_runs
       = inr (rep, g') /\
     Binary64.min_duration rep = 0x1.b800000000002p+6%float /\
     Binary64.max_duration rep = 0x1.b800000000002p+6%float /\
     Binary64.avg_duration rep = 0x1.b800000000003p+6%float /\
     PrimFloat.ltb (Binary64.max_duration rep) (Binary64.avg_duration rep) = true) /\
  (forallb Binary64.unit_draw Binary64.later_run = true /\
   exists rep g',
     Binary64.run_monte_carlo_simulation 3 0%float Binary64.three_later_runs
       = inr (rep, g') /\
     PrimFloat.ltb (Binary64.avg_duration rep) (Binary64.min_duration rep) = true).
Proof.
  split.
  - split; [vm_compute; reflexivity|].
    eexists _, _. split; [vm_compute; reflexivity|].
    repeat split; vm_compute; reflexivity.
  - split; [vm_compute; reflexivity|].
    eexists _, _. split; [vm_compute; reflexivity|].
    vm_compute; reflexivity.
Qed.

Lemma run_monte_carlo_nonpositive (num : Z) (li : Q) (g : Random) :
  (num <= 0)%Z -> run_monte_carlo_simulation num li g = inl ZeroDivisionError.
Proof.
  intros Hnum. unfold run_monte_carlo_simulation.
  replace (Z.to_nat num) with 0%nat by lia. simpl.
  destruct (decide (num = 0%Z)) as [->|Hne]; [reflexivity|].
  assert (Hn : inject_Z num < 0).
  { change 0 with (inject_Z 0). rewrite <- Zlt_Qlt. lia. }
  rewrite (py_div_ok _ (inject_Z num)) by lra. cbn [bind].
  rewrite py_div_zero; [reflexivity|]. unfold Qdiv. ring.
Qed.

(** C8 (as the code behaves).  [run_monte_carlo_simulation] does not check
    [num_simulations].  With [num_simulations <= 0] no simulation runs and
    the computation of the means raises [ZeroDivisionError].  With a
    positive [num_simulations] it runs that many simulations one after the
    other on the module-level generator and prints their mean duration,
    mean value added, the efficiency of the means, and the minimum and
    maximum duration. *)
Theorem C8_monte_carlo_runner (num : Z) (li : Q) (g : Random) :
  ((num <= 0)%Z ->
     run_monte_carlo_simulation num li g = inl ZeroDivisionError) /\
  ((0 < num)%Z -> unit_draws g ->
     exists ds g' rep,
       run_monte_carlo_simulation num li g = inr (rep, g') /\
       length ds = Z.to_nat num /\
       runs li g ds g' /\
       report_simulations rep = num /\
       avg_duration rep = py_sum ds / inject_Z num /\
       avg_value_added rep == 105 /\
       report_efficiency rep = 100 * (avg_value_added rep / avg_duration rep) /\
       is_min_of (min_duration rep) ds /\
       is_max_of (max_duration rep) ds).
Proof.
  split.
  - apply run_monte_carlo_nonpositive.
  - intros Hnum Hg.
    destruct (run_monte_carlo_ok num li g Hnum Hg)
      as (ds & g' & rep & Hrun & Hlen & Hruns & _ & Hrest).
    by exists ds, g', rep.
Qed.

(** C8 as stated fails: with [num_simulations = 0] (and with a negative
    one) the exception is [ZeroDivisionError], not [InvalidParameter]. *)
Lemma C8_counterexample :
  run_monte_carlo_simulation 0 0 (constant_random (1 # 2)) = inl ZeroDivisionError /\
  run_monte_carlo_simulation 0 0 (constant_random (1 # 2)) <> inl InvalidParameter /\
  run_monte_carlo_simulation (-2) 0 (constant_random (1 # 2)) = inl ZeroDivisionError /\
  run_monte_carlo_simulation (-2) 0 (constant_random (1 # 2)) <> inl InvalidParameter.
Proof. repeat split; (reflexivity || discriminate). Qed.

(** ** Dependence on the generator *)

Lemma simulate_duration_agree (t : Task) (g1 g2 : Random) (N : nat) :
  agree_until N g1 g2 ->
  value_added t = true \/ (consumed g1 + 2 <= N)%nat ->
  (simulate_duration t g1).1 = (simulate_duration t g2).1 /\
  agree_until N (simulate_duration t g1).2 (simulate_duration t g2).2 /\
  (consumed (simulate_duration t g1).2
     <= consumed g1 + (if value_added t then 0 else 2))%nat.
Proof.
  intros [Hc Hd] H. unfold simulate_duration.
  destruct (value_added t) eqn:Hva; simpl.
  { repeat split; try done. lia. }
  destruct H as [H|H]; [done|].
  destruct (Qlt_bool 0 (delay_factor t)); simpl.
  - rewrite <- Hc, <- (Hd (consumed g1)) by lia.
    destruct (Qlt_bool (draws g1 (consumed g1)) (delay_probability t)); simpl.
    + rewrite <- (Hd (S (consumed g1))) by lia.
      split; [done|]. split; [|lia].
      split; simpl; [done|]. intros k Hk. apply Hd. lia.
    + split; [done|]. split; [|lia].
      split; simpl; [done|]. intros k Hk. apply Hd. lia.
  - split; [done|]. split; [by split | lia].
Qed.

Lemma max_draws_cons (t : Task) (order : list Task) :
  max_draws (t :: order)
    = ((if value_added t then 0 else 2) + max_draws order)%nat.
Proof.
  unfold max_draws. rewrite filter_cons.
  destruct (decide (value_added t = false)) as [->|Hva]; simpl; [lia|].
  destruct (value_added t); [lia | done].
Qed.

(** The loop of lines 80-87 reads the generator only through the values it
    draws, and draws at most [max_draws order] of them. *)
Lemma schedule_loop_agree (order : list Task) :
  forall (schedule : dict ScheduleEntry) (g1 g2 : Random) (N : nat),
  agree_until N g1 g2 ->
  (consumed g1 + max_draws order <= N)%nat ->
  same_outcome (schedule_loop order schedule g1) (schedule_loop order schedule g2).
Proof.
  induction order as [|t rest IH]; intros schedule g1 g2 N Hag HN.
  - simpl. split; [done | apply Hag].
  - rewrite max_draws_cons in HN. simpl.
    destruct (start_of schedule (dependencies t)) as [err|start]; simpl; [done|].
    destruct (simulate_duration_agree t g1 g2 N Hag) as (Hdur & Hag' & Hc).
    { destruct (value_added t); [by left | right; lia]. }
    destruct (simulate_duration t g1) as [d1 g1'].
    destruct (simulate_duration t g2) as [d2 g2'].
    simpl in Hdur, Hag', Hc. subst d2.
    apply (IH _ g1' g2' N Hag'). lia.
Qed.

Lemma compute_schedule_tasks (li : Q) (g : Random) :
  compute_schedule recursion_limit (tasks li) g = schedule_loop (tasks li) [] g.
Proof. unfold compute_schedule. by rewrite tasks_order. Qed.

(** C6.  [simulate_project] draws from the module-level generator of
    [random]; a call is supplied with a seed by [random.seed(s)] before it,
    which puts the generator in a state that [s] determines.  Two calls with
    the same arguments that start with the generator in states that return
    the same next four values, as two calls supplied with the same seed do,
    return identical schedules, total durations, value-added totals and
    efficiencies, and draw the same number of values. *)
Theorem C6_same_generator_state (rs : bool) (li : Q) (g1 g2 : Random) :
  same_draws 4 g1 g2 ->
  same_outcome (simulate_project rs li g1) (simulate_project rs li g2).
Proof.
  intros Hag. unfold simulate_project, simulate_tasks.
  rewrite !compute_schedule_tasks.
  pose proof (schedule_loop_agree (tasks li) [] g1 g2 _ Hag) as Hloop.
  assert (Hmax : max_draws (tasks li) = 4%nat) by reflexivity.
  rewrite Hmax in Hloop. specialize (Hloop (Nat.le_refl _)).
  destruct (schedule_loop (tasks li) [] g1) as [e1|[s1 g1']];
    destruct (schedule_loop (tasks li) [] g2) as [e2|[s2 g2']];
    simpl in Hloop; try done.
  destruct Hloop as [<- Hc]. cbn [bind].
  destruct (total_duration_of s1) as [err|td]; cbn [bind]; [done|].
  destruct (py_div _ td) as [err|ratio]; cbn [bind]; [done|].
  by destruct rs.
Qed.

Lemma C6_same_generator_state_witness :
  same_draws 4 (list_random [1 # 2; 1 # 2; 9 # 10; 9 # 10])
               (list_random [1 # 2; 1 # 2; 9 # 10; 9 # 10; 1 # 3]) /\
  same_outcome
    (simulate_project true 0 (list_random [1 # 2; 1 # 2; 9 # 10; 9 # 10]))
    (simulate_project true 0 (list_random [1 # 2; 1 # 2; 9 # 10; 9 # 10; 1 # 3])).
Proof.
  assert (H : same_draws 4 (list_random [1 # 2; 1 # 2; 9 # 10; 9 # 10])
                (list_random [1 # 2; 1 # 2; 9 # 10; 9 # 10; 1 # 3])).
  { split; [reflexivity|]. simpl. intros k Hk.
    do 4 (destruct k as [|k]; [reflexivity|]). lia. }
  split; [exact H|].
  apply (C6_same_generator_state true 0 _ _ H).
Defined.

(** ** The topological ordering on any list of tasks *)

Lemma foldl_insert_notin (ts : list Task) :
  forall (m : gmap string Task) (n : string),
  n ∉ map name ts ->
  foldl (fun m t => <[name t := t]> m) m ts !! n = m !! n.
Proof.
  induction ts as [|t ts IH]; intros m n Hn; simpl; [done|].
  simpl in Hn. apply not_elem_of_cons in Hn as [Hne Hn].
  rewrite IH by done. by rewrite lookup_insert_ne.
Qed.

Lemma foldl_insert_Some (ts : list Task) :
  forall (m : gmap string Task) (n : string) (t : Task),
  foldl (fun m t => <[name t := t]> m) m ts !! n = Some t ->
  (t ∈ ts /\ name t = n) \/ m !! n = Some t.
Proof.
  induction ts as [|t0 ts IH]; intros m n t H; simpl in H; [by right|].
  apply IH in H as [[Hin Hn]|H].
  - left. split; [by apply list_elem_of_further | done].
  - destruct (decide (name t0 = n)) as [<-|Hne].
    + rewrite lookup_insert_eq in H. injection H as <-.
      left. split; [apply list_elem_of_here | done].
    + rewrite lookup_insert_ne in H by done. by right.
Qed.

Lemma foldl_insert_in (ts : list Task) :
  forall (m : gmap string Task) (n : string),
  n ∈ map name ts ->
  is_Some (foldl (fun m t => <[name t := t]> m) m ts !! n).
Proof.
  induction ts as [|t0 ts IH]; intros m n Hn; simpl in *.
  - by apply elem_of_nil in Hn.
  - destruct (decide (n ∈ map name ts)) as [Hin|Hnotin]; [by apply IH|].
    apply elem_of_cons in Hn as [->|Hn]; [|done].
    rewrite foldl_insert_notin by done. rewrite lookup_insert_eq. by eexists.
Qed.

Lemma tasks_by_name_Some (ts : list Task) (n : string) (t : Task) :
  tasks_by_name ts !! n = Some t -> t ∈ ts /\ name t = n.
Proof.
  intros H. apply foldl_insert_Some in H as [H|H]; [done|].
  by rewrite lookup_empty in H.
Qed.

Lemma tasks_by_name_in (ts : list Task) (n : string) :
  n ∈ map name ts -> is_Some (tasks_by_name ts !! n).
Proof. apply foldl_insert_in. Qed.

Lemma tasks_by_name_None (ts : list Task) (n : string) :
  tasks_by_name ts !! n = None -> n ∉ map name ts.
Proof.
  intros H Hin. apply tasks_by_name_in in Hin as [t Ht]. congruence.
Qed.

Lemma unique_names_inj (ts : list Task) (t t' : Task) :
  unique_names ts -> t ∈ ts -> t' ∈ ts -> name t = name t' -> t = t'.
Proof.
  unfold unique_names. induction ts as [|t0 ts IH]; simpl; intros Hnd Ht Ht' Heq.
  - by apply elem_of_nil in Ht.
  - apply NoDup_cons in Hnd as [Hn0 Hnd].
    apply elem_of_cons in Ht as [->|Ht]; apply elem_of_cons in Ht' as [->|Ht'].
    + done.
    + exfalso. apply Hn0. rewrite Heq. by apply list_elem_of_fmap_2.
    + exfalso. apply Hn0. rewrite <- Heq. by apply list_elem_of_fmap_2.
    + by apply IH.
Qed.

Lemma deps_before_app (earlier : list string) (l1 l2 : list Task) :
  deps_before earlier (l1 ++ l2)
    = deps_before earlier l1 && deps_before (earlier ++ map name l1) l2.
Proof.
  revert earlier. induction l1 as [|t l1 IH]; intros earlier; simpl.
  - by rewrite app_nil_r.
  - rewrite IH, <- app_assoc. simpl. by rewrite andb_assoc.
Qed.

Section Visit.
Variable tasks0 : list Task.
Variable by_name : gmap string Task.
Hypothesis by_name_tasks :
  forall n t, by_name !! n = Some t -> t ∈ tasks0 /\ name t = n.

Lemma visit_inv_init : visit_inv tasks0 ([], ∅).
Proof.
  repeat split; simpl; try done.
  - constructor.
  - intros H. by apply elem_of_nil in H.
  - intros t H. by apply elem_of_nil in H.
Qed.

(** Appending a task whose dependencies have all been seen. *)
Lemma visit_inv_append (st : visit_state) (t : Task) :
  visit_inv tasks0 st -> t ∈ tasks0 ->
  name t ∉ st.2 ->
  (forall d, d ∈ dependencies t -> d ∈ st.2) ->
  visit_inv tasks0 (st.1 ++ [t], {[name t]} ∪ st.2).
Proof.
  intros (Hnd & Hseen & Hsub & Hdeps) Ht Hfresh Hd.
  split; [|split; [|split]]; simpl.
  - rewrite map_app. simpl. apply NoDup_app. split; [done|]. split.
    + intros n Hn Hn'. apply list_elem_of_singleton in Hn' as ->.
      by apply Hfresh, Hseen.
    + apply NoDup_singleton.
  - intros n. rewrite map_app, elem_of_app, elem_of_union, elem_of_singleton.
    simpl. rewrite list_elem_of_singleton, Hseen. tauto.
  - intros t' Ht'. apply elem_of_app in Ht' as [Ht'|Ht']; [by apply Hsub|].
    by apply list_elem_of_singleton in Ht' as ->.
  - rewrite deps_before_app, Hdeps. simpl. rewrite andb_true_r.
    apply forallb_forall. intros d Hin. apply bool_decide_eq_true_2.
    apply Hseen, Hd. by apply list_elem_of_In.
Qed.

Lemma visit_deps_sound
    (rec : Task -> visit_state -> result visit_state) :
  (forall t st st', t ∈ tasks0 -> visit_inv tasks0 st ->
     rec t st = inr st' -> visit_post tasks0 st t st') ->
  forall (deps : list string) (st st' : visit_state),
  visit_inv tasks0 st ->
  visit_deps by_name rec deps st = inr st' ->
  visit_inv tasks0 st' /\ (forall d, d ∈ deps -> d ∈ st'.2) /\ st.2 ⊆ st'.2.
Proof.
  intros Hrec. induction deps as [|dep deps IH]; intros st st' Hinv; simpl.
  - intros [= <-]. split; [done|]. split; [|done].
    intros d Hd. by apply elem_of_nil in Hd.
  - destruct (decide (dep ∈ st.2)) as [Hin|Hnotin]; simpl.
    + intros Hrest. destruct (IH _ _ Hinv Hrest) as (Hinv' & Hall & Hsub).
      split; [done|]. split; [|done].
      intros d Hd.
      apply elem_of_cons in Hd as [->|Hd]; [by apply Hsub | by apply Hall].
    + destruct (by_name !! dep) as [t|] eqn:Hlook; simpl; [|done].
      destruct (by_name_tasks _ _ Hlook) as [Ht Hname].
      destruct (rec t st) as [err|st1] eqn:Hcall; simpl; [done|].
      intros Hrest.
      destruct (Hrec _ _ _ Ht Hinv Hcall) as (Hinv1 & Hseen1 & Hsub1).
      destruct (IH _ _ Hinv1 Hrest) as (Hinv' & Hall & Hsub).
      split; [done|]. split.
      * intros d Hd. apply elem_of_cons in Hd as [->|Hd]; [|by apply Hall].
        apply Hsub. by rewrite <- Hname.
      * intros n Hn. by apply Hsub, Hsub1.
Qed.

Lemma visit_sound (fuel : nat) :
  forall (t : Task) (st st' : visit_state),
  t ∈ tasks0 -> visit_inv tasks0 st ->
  visit fuel by_name t st = inr st' ->
  visit_post tasks0 st t st'.
Proof.
  induction fuel as [|fuel IH]; intros t st st' Ht Hinv; simpl; [done|].
  destruct (visit_deps by_name (visit fuel by_name) (dependencies t) st)
    as [err|st1] eqn:Hdeps; simpl; [done|].
  destruct (visit_deps_sound _ IH _ _ _ Hinv Hdeps) as (Hinv1 & Hall & Hsub).
  destruct (decide (name t ∈ st1.2)) as [Hin|Hnotin]; intros [= <-].
  - done.
  - split; [by apply visit_inv_append|]. simpl. split.
    + apply elem_of_union. left. by apply elem_of_singleton.
    + intros n Hn. apply elem_of_union. right. by apply Hsub.
Qed.

Lemma visit_all_sound (fuel : nat) (ts : list Task) :
  forall (st st' : visit_state),
  (forall t, t ∈ ts -> t ∈ tasks0) ->
  visit_inv tasks0 st ->
  visit_all fuel by_name ts st = inr st' ->
  visit_inv tasks0 st' /\ (forall t, t ∈ ts -> name t ∈ st'.2) /\ st.2 ⊆ st'.2.
Proof.
  induction ts as [|t ts IH]; intros st st' Hts Hinv; simpl.
  - intros [= <-]. split; [done|]. split; [|done].
    intros t Ht. by apply elem_of_nil in Ht.
  - destruct (visit fuel by_name t st) as [err|st1] eqn:Hcall; simpl; [done|].
    intros Hrest.
    destruct (visit_sound _ _ _ _ (Hts t (list_elem_of_here _ _)) Hinv Hcall)
      as (Hinv1 & Hseen1 & Hsub1).
    destruct (IH _ _ (fun t' Ht' => Hts t' (list_elem_of_further _ _ _ Ht')) Hinv1 Hrest)
      as (Hinv' & Hall & Hsub).
    split; [done|]. split.
    + intros t' Ht'.
      apply elem_of_cons in Ht' as [->|Ht']; [by apply Hsub | by apply Hall].
    + intros n Hn. by apply Hsub, Hsub1.
Qed.

Lemma visit_deps_error
    (rec : Task -> visit_state -> result visit_state) (t0 : Task) :
  (forall t st e, t ∈ tasks0 -> rec t st = inl e -> visit_error tasks0 by_name e) ->
  t0 ∈ tasks0 ->
  forall (deps : list string) (st : visit_state) (e : exn),
  (forall d, d ∈ deps -> d ∈ dependencies t0) ->
  visit_deps by_name rec deps st = inl e -> visit_error tasks0 by_name e.
Proof.
  intros Hrec Ht0. induction deps as [|dep deps IH]; intros st e Hsub; simpl; [done|].
  assert (Hsub' : forall d, d ∈ deps -> d ∈ dependencies t0)
    by (intros d Hd; by apply Hsub, list_elem_of_further).
  destruct (decide (dep ∈ st.2)) as [Hin|Hnotin]; simpl; [by apply IH|].
  destruct (by_name !! dep) as [t|] eqn:Hlook; simpl.
  - destruct (by_name_tasks _ _ Hlook) as [Ht _].
    destruct (rec t st) as [err|st1] eqn:Hcall; simpl.
    + intros [= <-]. by apply (Hrec t st).
    + by apply IH.
  - intros [= <-]. right. exists t0, dep.
    repeat split; try done. apply Hsub, list_elem_of_here.
Qed.

Lemma visit_raises (fuel : nat) :
  forall (t : Task) (st : visit_state) (e : exn),
  t ∈ tasks0 -> visit fuel by_name t st = inl e -> visit_error tasks0 by_name e.
Proof.
  induction fuel as [|fuel IH]; intros t st e Ht; simpl.
  - intros [= <-]. by left.
  - destruct (visit_deps by_name (visit fuel by_name) (dependencies t) st)
      as [err|st1] eqn:Hdeps; simpl.
    + intros [= <-]. by apply (visit_deps_error _ t IH Ht _ _ _ (fun d Hd => Hd) Hdeps).
    + by destruct (decide (name t ∈ st1.2)).
Qed.

Lemma visit_all_raises (fuel : nat) (ts : list Task) :
  forall (st : visit_state) (e : exn),
  (forall t, t ∈ ts -> t ∈ tasks0) ->
  visit_all fuel by_name ts st = inl e -> visit_error tasks0 by_name e.
Proof.
  induction ts as [|t ts IH]; intros st e Hts; simpl; [done|].
  destruct (visit fuel by_name t st) as [err|st1] eqn:Hcall; simpl.
  - intros [= <-]. by apply (visit_raises fuel t st), Hcall; apply Hts, list_elem_of_here.
  - apply IH. intros t' Ht'. by apply Hts, list_elem_of_further.
Qed.
End Visit.

(** In a list that puts every task after its dependencies, a dependency
    stands before the task that lists it. *)
Lemma deps_before_index (order : list Task) :
  forall (earlier : list string) (t : Task) (d : string),
  NoDup (map name order) ->
  deps_before earlier order = true ->
  t ∈ order -> d ∈ dependencies t ->
  d ∈ earlier \/
  (d ∈ map name order /\
   (index_of d (map name order) < index_of (name t) (map name order))%nat).
Proof.
  induction order as [|t0 rest IH]; intros earlier t d Hnd Hdeps Ht Hd.
  - by apply elem_of_nil in Ht.
  - apply deps_before_cons in Hdeps as [Hd0 Hrest].
    simpl in Hnd. apply NoDup_cons in Hnd as [Hn0 Hnd].
    apply elem_of_cons in Ht as [->|Ht]; [left; by apply Hd0|].
    assert (Hnt : name t0 <> name t).
    { intros Heq. apply Hn0. rewrite Heq. by apply list_elem_of_fmap_2. }
    destruct (IH _ t d Hnd Hrest Ht Hd) as [Hin|[Hin Hlt]].
    + apply elem_of_app in Hin as [Hin|Hin]; [by left|].
      apply list_elem_of_singleton in Hin as ->. right. simpl. split.
      * apply list_elem_of_here.
      * rewrite decide_True by done. rewrite decide_False by done. lia.
    + right. simpl. split; [by apply list_elem_of_further|].
      assert (name t0 <> d) by (intros <-; done).
      rewrite !decide_False by done. lia.
Qed.

(** A complete order that puts every task after its dependencies shows
    that the project is well referenced and acyclic. *)
Lemma order_acyclic (ts order : list Task) :
  unique_names ts ->
  NoDup (map name order) ->
  deps_before [] order = true ->
  (forall t, t ∈ order -> t ∈ ts) ->
  (forall t, t ∈ ts -> name t ∈ map name order) ->
  well_referenced ts /\ acyclic ts /\ order ≡ₚ ts.
Proof.
  intros Huniq Hnd Hdeps Hsub Hall.
  assert (Hsup : forall t, t ∈ ts -> t ∈ order).
  { intros t Ht. destruct (list_elem_of_fmap_1 _ _ _ (Hall t Ht)) as (t' & Heq & Ht').
    by rewrite (unique_names_inj ts t t' Huniq Ht (Hsub _ Ht') Heq). }
  assert (Hidx : forall a b, depends_on ts a b ->
            (index_of b (map name order) < index_of a (map name order))%nat
            /\ b ∈ map name ts).
  { intros a b (t & Ht & <- & Hb).
    destruct (deps_before_index order [] t b Hnd Hdeps (Hsup t Ht) Hb) as [Hin|[Hin Hlt]].
    - by apply elem_of_nil in Hin.
    - split; [done|].
      destruct (list_elem_of_fmap_1 _ _ _ Hin) as (t' & -> & Ht').
      by apply list_elem_of_fmap_2, Hsub. }
  split; [|split].
  - intros t d Ht Hd. apply (Hidx (name t) d). by exists t.
  - intros n Hcyc.
    assert (Hlt : forall a b, tc (depends_on ts) a b ->
              (index_of b (map name order) < index_of a (map name order))%nat).
    { intros a b Htc. induction Htc as [a b Hab|a b c Hab _ IH].
      - by apply Hidx.
      - apply Hidx in Hab as [Hab _]. lia. }
    specialize (Hlt n n Hcyc). lia.
  - apply NoDup_Permutation.
    + by apply (NoDup_fmap_1 name).
    + by apply (NoDup_fmap_1 name).
    + intros t. split; [apply Hsub | apply Hsup].
Qed.

Lemma ordered_tasks_acyclic (ts : list Task) :
  unique_names ts -> deps_before [] ts = true ->
  well_referenced ts /\ acyclic ts.
Proof.
  intros Huniq Hdeps.
  destruct (order_acyclic ts ts Huniq Huniq Hdeps) as (Hwr & Hac & _); try done.
  intros t Ht. by apply list_elem_of_fmap_2.
Qed.

(** A returning ordering has listed every task once and after its
    dependencies; the project is then well referenced and acyclic. *)
Lemma topological_order_sound (fuel : nat) (ts order : list Task) :
  unique_names ts ->
  topological_order fuel ts = inr order ->
  order ≡ₚ ts /\ deps_before [] order = true /\
  well_referenced ts /\ acyclic ts.
Proof.
  intros Huniq. unfold topological_order.
  destruct (visit_all fuel (tasks_by_name ts) ts ([], ∅)) as [err|st] eqn:Hall;
    simpl; [done|].
  intros [= <-].
  destruct (visit_all_sound ts (tasks_by_name ts) (tasks_by_name_Some ts)
              fuel ts _ _ (fun t Ht => Ht) (visit_inv_init ts) Hall)
    as ((Hnd & Hseen & Hsub & Hdeps) & Hnames & _).
  destruct (order_acyclic ts st.1 Huniq Hnd Hdeps Hsub) as (Hwr & Hac & Hperm).
  { intros t Ht. by apply Hseen, Hnames. }
  done.
Qed.

(** What the ordering raises when it does not return. *)
Lemma topological_order_raises (fuel : nat) (ts : list Task) (e : exn) :
  topological_order fuel ts = inl e ->
  e = RecursionError \/
  exists t d, e = KeyError d /\ t ∈ ts /\ d ∈ dependencies t /\ d ∉ map name ts.
Proof.
  unfold topological_order.
  destruct (visit_all fuel (tasks_by_name ts) ts ([], ∅)) as [err|st] eqn:Hall;
    simpl; [|done].
  intros [= <-].
  destruct (visit_all_raises ts (tasks_by_name ts) (tasks_by_name_Some ts)
              fuel ts _ _ (fun t Ht => Ht) Hall) as [->|(t & d & -> & Ht & Hd & Hnone)].
  - by left.
  - right. exists t, d. repeat split; try done. by apply tasks_by_name_None.
Qed.

Section Depth.
Variable tasks0 : list Task.
Hypothesis Hac : acyclic tasks0.

Lemma visit_deps_no_overflow
    (rec : Task -> visit_state -> result visit_state) (deps : list string) :
  (forall d t, d ∈ deps -> tasks_by_name tasks0 !! d = Some t ->
     forall st, rec t st <> inl RecursionError) ->
  forall st, visit_deps (tasks_by_name tasks0) rec deps st <> inl RecursionError.
Proof.
  induction deps as [|dep deps IH]; intros Hrec st; simpl; [done|].
  assert (Hrest : forall st1,
            visit_deps (tasks_by_name tasks0) rec deps st1 <> inl RecursionError).
  { apply IH. intros d t Hd. by apply Hrec, list_elem_of_further. }
  destruct (decide (dep ∈ st.2)) as [Hin|Hnotin]; simpl; [apply Hrest|].
  destruct (tasks_by_name tasks0 !! dep) as [t|] eqn:Hlook; simpl; [|done].
  pose proof (Hrec dep t (list_elem_of_here _ _) Hlook st) as Hcall.
  destruct (rec t st) as [e|st1]; simpl; [congruence | apply Hrest].
Qed.

(** The names on the recursion stack are distinct names of tasks, so the
    stack is never deeper than the number of tasks. *)
Lemma stack_depth (path : list string) :
  NoDup path -> (forall p, p ∈ path -> p ∈ map name tasks0) ->
  (length path <= length tasks0)%nat.
Proof.
  intros Hnd Hsub. rewrite <- (length_fmap name tasks0).
  by apply submseteq_length, NoDup_submseteq.
Qed.

(** Without a cycle, [visit(t)] does not run out of depth when the calls
    still open and the depth that remains exceed the number of tasks
    together: [path] lists the names of the calls that are still open. *)
Lemma visit_no_overflow (fuel : nat) :
  forall (t : Task) (path : list string) (st : visit_state),
  t ∈ tasks0 ->
  NoDup (name t :: path) ->
  (forall p, p ∈ path -> p ∈ map name tasks0) ->
  (forall p, p ∈ path -> tc (depends_on tasks0) p (name t)) ->
  (length tasks0 < fuel + length (name t :: path))%nat ->
  visit fuel (tasks_by_name tasks0) t st <> inl RecursionError.
Proof.
  induction fuel as [|fuel IH]; intros t path st Ht Hnd Hsub Hreach Hfuel.
  - exfalso. assert (length (name t :: path) <= length tasks0)%nat; [|simpl in *; lia].
    apply stack_depth; [done|]. intros p Hp.
    apply elem_of_cons in Hp as [->|Hp]; [by apply list_elem_of_fmap_2 | by apply Hsub].
  - simpl.
    pose proof (visit_deps_no_overflow (visit fuel (tasks_by_name tasks0))
                  (dependencies t)) as Hdeps.
    destruct (visit_deps (tasks_by_name tasks0) (visit fuel (tasks_by_name tasks0))
                (dependencies t) st) as [e|st1] eqn:Hrun; simpl.
    + intros [= ->]. revert Hrun. apply Hdeps. clear st.
      intros d td Hd Htd st0.
      destruct (tasks_by_name_Some _ _ _ Htd) as [Htd_in Hname].
      assert (Hstep : depends_on tasks0 (name t) d) by by exists t.
      apply (IH td (name t :: path) st0 Htd_in); rewrite ?Hname.
      * apply NoDup_cons. split; [|done].
        intros Hin. apply elem_of_cons in Hin as [->|Hin].
        { by apply (Hac (name t)), tc_once. }
        apply (Hac d). by apply tc_r with (name t); [apply Hreach|].
      * intros p Hp. apply elem_of_cons in Hp as [->|Hp];
          [by apply list_elem_of_fmap_2 | by apply Hsub].
      * intros p Hp. apply elem_of_cons in Hp as [->|Hp];
          [by apply tc_once | by apply tc_r with (name t); [apply Hreach|]].
      * simpl in *. lia.
    + by destruct (decide (name t ∈ st1.2)).
Qed.

Lemma visit_all_no_overflow (fuel : nat) (ts : list Task) :
  (length tasks0 <= fuel)%nat ->
  (forall t, t ∈ ts -> t ∈ tasks0) ->
  forall st, visit_all fuel (tasks_by_name tasks0) ts st <> inl RecursionError.
Proof.
  intros Hfuel. induction ts as [|t ts IH]; intros Hts st; simpl; [done|].
  assert (Hcall : visit fuel (tasks_by_name tasks0) t st <> inl RecursionError).
  { apply (visit_no_overflow fuel t []).
    - apply Hts, list_elem_of_here.
    - apply NoDup_singleton.
    - intros p Hp. by apply elem_of_nil in Hp.
    - intros p Hp. by apply elem_of_nil in Hp.
    - simpl. lia. }
  destruct (visit fuel (tasks_by_name tasks0) t st) as [e|st1]; simpl; [congruence|].
  apply IH. intros t' Ht'. by apply Hts, list_elem_of_further.
Qed.
End Depth.

(** Without a cycle the ordering does not raise [RecursionError] when the
    depth of recursion that remains for [visit] is at least the number of
    tasks. *)
Lemma topological_order_no_overflow (fuel : nat) (ts : list Task) :
  acyclic ts -> (length ts <= fuel)%nat ->
  topological_order fuel ts <> inl RecursionError.
Proof.
  intros Hac Hfuel. unfold topological_order.
  pose proof (visit_all_no_overflow ts Hac fuel ts Hfuel (fun t Ht => Ht) ([], ∅)) as H.
  destruct (visit_all fuel (tasks_by_name ts) ts ([], ∅)) as [e|st]; simpl;
    [congruence | done].
Qed.

Lemma topological_order_progress (fuel : nat) (ts : list Task) :
  well_referenced ts -> acyclic ts -> (length ts <= fuel)%nat ->
  exists order, topological_order fuel ts = inr order.
Proof.
  intros Hwr Hac Hfuel.
  destruct (topological_order fuel ts) as [e|order] eqn:Hrun; [|by eexists].
  exfalso.
  destruct (topological_order_raises _ _ _ Hrun) as [->|(t & d & -> & Ht & Hd & Hnot)].
  - by apply (topological_order_no_overflow fuel ts).
  - by apply Hnot, (Hwr t d).
Qed.





(** * Further properties of the engine *)

(** ** The schedule of any valid project *)

Lemma dep_finish_le_start (schedule : dict ScheduleEntry) (t : Task)
    (e : ScheduleEntry) (d : string) :
  entry_ok schedule t e -> d ∈ dependencies t ->
  exists e_d, dict_get schedule d = Some e_d /\ finish_time e_d <= start_time e.
Proof.
  intros (_ & Hstart & _ & _) Hd.
  apply start_of_spec in Hstart as [_ Hmax].
  destruct Hmax as (fs & Hfs & _ & Hmax).
  { intros Heq. rewrite Heq in Hd. by apply elem_of_nil in Hd. }
  induction Hfs as [|d' f deps fs (e' & He' & Hf) Hrest IH].
  - by apply elem_of_nil in Hd.
  - apply elem_of_cons in Hd as [->|Hd].
    + exists e'. split; [done|]. rewrite Hf. apply Hmax, list_elem_of_here.
    + apply IH; [done|]. intros y Hy. by apply Hmax, list_elem_of_further.
Qed.

(** The scheduling pass on a valid project, with enough depth of
    recursion left for [visit]. *)
Lemma valid_project_schedule (fuel : nat) (ts : list Task) (g : Random) :
  unique_names ts -> well_referenced ts -> acyclic ts ->
  (length ts <= fuel)%nat ->
  exists order schedule g',
    topological_order fuel ts = inr order /\
    compute_schedule fuel ts g = inr (schedule, g') /\
    keys schedule = map name order /\
    order ≡ₚ ts /\
    draws g' = draws g /\
    forall t, t ∈ ts ->
      exists e, dict_get schedule (name t) = Some e /\
        finish_time e = start_time e + real_duration e /\
        entry_value_added e = value_added t /\
        entry_base_duration e = base_duration t /\
        forall d, d ∈ dependencies t ->
          exists e_d, dict_get schedule d = Some e_d /\
            finish_time e_d <= start_time e.
Proof.
  intros Huniq Hwr Hac Hfuel.
  destruct (topological_order_progress fuel ts Hwr Hac Hfuel) as [order Horder].
  destruct (topological_order_sound _ _ _ Huniq Horder) as (Hperm & Hdeps & _).
  assert (Hnd : NoDup (map name order)).
  { unfold unique_names in Huniq. by rewrite <- Hperm in Huniq. }
  destruct (schedule_loop_inv order [] g Hnd)
    as (schedule & g' & Hrun & Hkeys & Hdraws & _ & _ & Hall).
  { intros t _. apply not_elem_of_nil. }
  { done. }
  exists order, schedule, g'. split; [done|]. split.
  { unfold compute_schedule. by rewrite Horder. }
  split; [done|]. split; [done|]. split; [done|].
  intros t Ht. rewrite <- Hperm in Ht.
  destruct (Hall t Ht) as (e & He & Hok & _).
  exists e. split; [done|].
  destruct Hok as (Hfin & Hstart & Hva & Hbase).
  repeat (split; [done|]).
  intros d Hd. by apply (dep_finish_le_start schedule t e d).
Qed.

(** X1.  For any list of tasks with distinct names in which every
    dependency names a task and there is no cycle, lines 61-87 compute a
    schedule without raising when [fuel], the number of nested calls of
    [visit] that the interpreter can still carry out (less than its
    recursion limit, which also counts the frames already on the stack), is
    at least the number of tasks: the schedule has one entry per task, each
    entry ends at [start + real_duration], copies [value_added] and
    [base_duration], and no task starts before any of its dependencies has
    finished. *)
Theorem X1_valid_project_schedule (fuel : nat) (ts : list Task) (g : Random) :
  unique_names ts -> well_referenced ts -> acyclic ts ->
  (length ts <= fuel)%nat ->
  exists order schedule g',
    topological_order fuel ts = inr order /\
    compute_schedule fuel ts g = inr (schedule, g') /\
    keys schedule = map name order /\
    order ≡ₚ ts /\
    draws g' = draws g /\
    forall t, t ∈ ts ->
      exists e, dict_get schedule (name t) = Some e /\
        finish_time e = start_time e + real_duration e /\
        entry_value_added e = value_added t /\
        entry_base_duration e = base_duration t /\
        forall d, d ∈ dependencies t ->
          exists e_d, dict_get schedule d = Some e_d /\
            finish_time e_d <= start_time e.
Proof. apply valid_project_schedule. Qed.

Lemma X1_valid_project_schedule_witness :
  (unique_names (tasks 0) /\ well_referenced (tasks 0) /\ acyclic (tasks 0) /\
   (length (tasks 0) <= 9)%nat) /\
  exists schedule g',
    compute_schedule 9 (tasks 0) (constant_random (1 # 2)) = inr (schedule, g') /\
    keys schedule = map name (tasks 0).
Proof.
  assert (Huniq : unique_names (tasks 0)) by (unfold unique_names; compute_done).
  destruct (ordered_tasks_acyclic (tasks 0) Huniq eq_refl) as [Hwr Hac].
  assert (Hlen : (length (tasks 0) <= 9)%nat) by (simpl; lia).
  split; [done|].
  destruct (X1_valid_project_schedule 9 (tasks 0) (constant_random (1 # 2))
              Huniq Hwr Hac Hlen)
    as (order & schedule & g' & Horder & Hrun & Hkeys & _).
  exists schedule, g'. split; [exact Hrun|].
  rewrite Hkeys. assert (Ho : topological_order 9 (tasks 0) = inr (tasks 0))
    by (vm_compute; reflexivity).
  rewrite Ho in Horder. by injection Horder as <-.
Defined.

Lemma total_duration_of_ok (schedule : dict ScheduleEntry) :
  schedule <> [] -> exists td, total_duration_of schedule = inr td.
Proof.
  intros Hne. unfold total_duration_of.
  destruct (dict_mem schedule "Inspeção") eqn:Hmem.
  - apply dict_mem_true, dict_get_is_Some in Hmem as [e He].
    rewrite (dict_item_Some _ _ _ He). simpl. by eexists.
  - apply py_max_nonempty. by destruct schedule.
Qed.

(** X2.  On a valid project (distinct names, every dependency a task, no
    cycle) and with [fuel], the number of nested calls of [visit] that the
    interpreter can still carry out (less than its recursion limit, which
    also counts the frames already on the stack), at least the number of
    tasks, the only exception that lines 61-96 can raise is the one of the
    last computations: without
    tasks, [max] of an empty sequence raises [ValueError] at line 89; with
    tasks, the division of line 91 raises [ZeroDivisionError] exactly when
    the total duration is zero, and otherwise the call returns the total
    duration, the value-added sum and [100 * (value_added / total)]. *)
Theorem X2_valid_project_exceptions (fuel : nat) (ts : list Task) (rs : bool)
    (g : Random) :
  unique_names ts -> well_referenced ts -> acyclic ts ->
  (length ts <= fuel)%nat ->
  (ts = [] -> simulate_tasks fuel ts rs g = inl ValueError) /\
  (ts <> [] ->
     exists schedule g' td,
       compute_schedule fuel ts g = inr (schedule, g') /\
       total_duration_of schedule = inr td /\
       (td == 0 -> simulate_tasks fuel ts rs g = inl ZeroDivisionError) /\
       (~ td == 0 ->
          simulate_tasks fuel ts rs g =
            inr (if rs
                 then Ret4 schedule td (total_value_added_of ts)
                        (100 * (total_value_added_of ts / td))
                 else Ret3 td (total_value_added_of ts)
                        (100 * (total_value_added_of ts / td)), g'))).
Proof.
  intros Huniq Hwr Hac Hfuel. split.
  - intros ->. by destruct fuel.
  - intros Hne.
    destruct (valid_project_schedule fuel ts g Huniq Hwr Hac Hfuel)
      as (order & schedule & g' & _ & Hrun & Hkeys & Hperm & _).
    assert (Hs : schedule <> []).
    { intros ->. simpl in Hkeys. symmetry in Hkeys.
      apply fmap_nil_inv in Hkeys. subst order.
      by apply Permutation_nil_l in Hperm. }
    destruct (total_duration_of_ok schedule Hs) as [td Htd].
    exists schedule, g', td. split; [done|]. split; [done|].
    unfold simulate_tasks. rewrite Hrun. simpl. rewrite Htd. simpl. split.
    + intros Hz. by rewrite py_div_zero.
    + intros Hnz. rewrite py_div_ok by done. simpl. by destruct rs.
Qed.

Lemma X2_valid_project_exceptions_witness :
  (unique_names (tasks 0) /\ well_referenced (tasks 0) /\ acyclic (tasks 0) /\
   (length (tasks 0) <= 9)%nat) /\
  exists g',
    simulate_tasks 9 (tasks 0) false (constant_random (1 # 2))
      = inr (Ret3 (456 # 4) 105 (100 * (105 / (456 # 4))), g').
Proof.
  assert (Huniq : unique_names (tasks 0)) by (unfold unique_names; compute_done).
  destruct (ordered_tasks_acyclic (tasks 0) Huniq eq_refl) as [Hwr Hac].
  assert (Hlen : (length (tasks 0) <= 9)%nat) by (simpl; lia).
  split; [done|].
  destruct (X2_valid_project_exceptions 9 (tasks 0) false (constant_random (1 # 2))
              Huniq Hwr Hac Hlen) as [_ Hrun].
  destruct (Hrun ltac:(discriminate)) as (schedule & g' & td & Hs & Htd & _ & Hret).
  assert (Hs' : exists s0 g0,
            compute_schedule 9 (tasks 0) (constant_random (1 # 2)) = inr (s0, g0) /\
            total_duration_of s0 = inr (456 # 4)).
  { eexists _, _. split; vm_compute; reflexivity. }
  destruct Hs' as (s0 & g0 & Hs0 & Htd0).
  rewrite Hs0 in Hs. injection Hs as -> ->.
  rewrite Htd0 in Htd. injection Htd as <-.
  exists g'. apply Hret. discriminate.
Defined.

(** ** The ordering on any list of tasks *)

Lemma visit_deps_seen (by_name : gmap string Task)
    (rec : Task -> visit_state -> result visit_state)
    (deps : list string) (st : visit_state) :
  (forall d, d ∈ deps -> d ∈ st.2) ->
  visit_deps by_name rec deps st = inr st.
Proof.
  induction deps as [|dep deps IH]; intros Hd; simpl; [done|].
  rewrite decide_True by apply Hd, list_elem_of_here. simpl.
  apply IH. intros d Hin. by apply Hd, list_elem_of_further.
Qed.

(** A task whose dependencies have all been seen is appended without any
    recursive call. *)
Lemma visit_ready (fuel : nat) (by_name : gmap string Task) (t : Task)
    (st : visit_state) :
  (forall d, d ∈ dependencies t -> d ∈ st.2) ->
  name t ∉ st.2 ->
  visit (S fuel) by_name t st = inr (st.1 ++ [t], {[name t]} ∪ st.2).
Proof.
  intros Hd Hfresh. simpl. rewrite visit_deps_seen by done. simpl.
  by rewrite decide_False.
Qed.

Lemma visit_all_ordered (fuel : nat) (by_name : gmap string Task) (ts : list Task) :
  forall (pre : list Task) (seen : gset string),
  NoDup (map name (pre ++ ts)) ->
  deps_before (map name pre) ts = true ->
  (forall n, n ∈ seen <-> n ∈ map name pre) ->
  exists seen', visit_all (S fuel) by_name ts (pre, seen) = inr (pre ++ ts, seen').
Proof.
  induction ts as [|t ts IH]; intros pre seen Hnd Hdeps Hseen.
  - exists seen. simpl. by rewrite app_nil_r.
  - apply deps_before_cons in Hdeps as [Hd Hrest].
    rewrite map_app in Hnd. simpl in Hnd.
    pose proof Hnd as Hnd'.
    apply NoDup_app in Hnd as (_ & Hdisj & _).
    cbn [visit_all]. rewrite visit_ready; simpl.
    + destruct (IH (pre ++ [t]) ({[name t]} ∪ seen)) as [seen' Hrun].
      * by rewrite <- app_assoc, map_app.
      * by rewrite map_app.
      * intros n. rewrite map_app, elem_of_app, elem_of_union, elem_of_singleton.
        simpl. rewrite list_elem_of_singleton, Hseen. tauto.
      * exists seen'. by rewrite Hrun, <- app_assoc.
    + intros d Hin. by apply Hseen, Hd.
    + intros Hin. apply Hseen in Hin. apply (Hdisj _ Hin), list_elem_of_here.
Qed.

(** X3.  A list of tasks with distinct names that already puts every task
    after its dependencies is returned unchanged by the ordering of lines
    64-75, at any recursion limit of at least one call: the tasks are
    scheduled, and listed, in the order in which they are declared. *)
Theorem X3_declared_order_kept (fuel : nat) (ts : list Task) :
  unique_names ts -> deps_before [] ts = true ->
  topological_order (S fuel) ts = inr ts.
Proof.
  intros Huniq Hdeps. unfold topological_order.
  destruct (visit_all_ordered fuel (tasks_by_name ts) ts [] ∅) as [seen' ->];
    try done.
  intros n. split; [intros H; by apply not_elem_of_empty in H | intros H; by apply elem_of_nil in H].
Qed.

Lemma X3_declared_order_kept_witness :
  (unique_names (tasks 0) /\ deps_before [] (tasks 0) = true) /\
  topological_order 1 (tasks 0) = inr (tasks 0).
Proof.
  assert (Huniq : unique_names (tasks 0)) by (unfold unique_names; compute_done).
  assert (Hdeps : deps_before [] (tasks 0) = true) by reflexivity.
  split; [done|]. exact (X3_declared_order_kept 0 (tasks 0) Huniq Hdeps).
Defined.

(** X4.  Whatever the list of tasks (names may repeat, dependencies may
    be undefined or cyclic), an ordering that returns lists tasks of the
    project only, no name twice, every name of the project, and every listed
    task after all of its dependencies. *)
Theorem X4_order_sound (fuel : nat) (ts order : list Task) :
  topological_order fuel ts = inr order ->
  NoDup (map name order) /\
  (forall t, t ∈ order -> t ∈ ts) /\
  (forall t, t ∈ ts -> name t ∈ map name order) /\
  deps_before [] order = true /\
  (length order <= length ts)%nat.
Proof.
  unfold topological_order.
  destruct (visit_all fuel (tasks_by_name ts) ts ([], ∅)) as [err|st] eqn:Hall;
    simpl; [done|].
  intros [= <-].
  destruct (visit_all_sound ts (tasks_by_name ts) (tasks_by_name_Some ts)
              fuel ts _ _ (fun t Ht => Ht) (visit_inv_init ts) Hall)
    as ((Hnd & Hseen & Hsub & Hdeps) & Hnames & _).
  split; [done|]. split; [done|]. split.
  { intros t Ht. by apply Hseen, Hnames. }
  split; [done|].
  apply submseteq_length, NoDup_submseteq; [|done].
  by apply (NoDup_fmap_1 name).
Qed.

Lemma X4_order_sound_witness :
  topological_order 5 duplicate_example = inr [mkTask "A" 1 true 0 1 []] /\
  NoDup (map name [mkTask "A" 1 true 0 1 []]) /\
  (length [mkTask "A" 1 true 0 1 []] <= length duplicate_example)%nat.
Proof.
  assert (H : topological_order 5 duplicate_example = inr [mkTask "A" 1 true 0 1 []])
    by reflexivity.
  split; [exact H|].
  destruct (X4_order_sound 5 duplicate_example _ H) as (Hnd & _ & _ & _ & Hlen).
  split; [exact Hnd | exact Hlen].
Defined.

(** X5.  [tasks_by_name] (line 62) finds a task for exactly the names of
    the list, and when a name is repeated the last task of that name is the
    one found. *)
Theorem X5_tasks_by_name_last (ts1 ts2 : list Task) (t : Task) (n : string) :
  name t ∉ map name ts2 ->
  tasks_by_name (ts1 ++ t :: ts2) !! name t = Some t /\
  (tasks_by_name (ts1 ++ t :: ts2) !! n = None <->
     n ∉ map name (ts1 ++ t :: ts2)).
Proof.
  intros Hn. split.
  - unfold tasks_by_name. rewrite foldl_app. simpl.
    rewrite foldl_insert_notin by done. apply lookup_insert_eq.
  - split; [apply tasks_by_name_None|].
    intros Hnot. destruct (tasks_by_name (ts1 ++ t :: ts2) !! n) as [t'|] eqn:E; [|done].
    apply tasks_by_name_Some in E as [Hin <-].
    exfalso. by apply Hnot, list_elem_of_fmap_2.
Qed.

Lemma X5_tasks_by_name_last_witness :
  ("A" ∉ map name ([] : list Task)) /\
  tasks_by_name duplicate_example !! "A" = Some (mkTask "A" 2 true 0 1 []).
Proof.
  assert (H : name (mkTask "A" 2 true 0 1 []) ∉ map name ([] : list Task))
    by (simpl; apply not_elem_of_nil).
  split; [exact H|].
  exact (proj1 (X5_tasks_by_name_last [mkTask "A" 1 true 0 1 []] []
                  (mkTask "A" 2 true 0 1 []) "A" H)).
Defined.

(** ** The schedule of the built-in project in closed form *)

Lemma schedule_loop_step (t : Task) (rest : list Task) (s : dict ScheduleEntry)
    (g : Random) (start : Q) :
  start_of s (dependencies t) = inr start ->
  name t ∉ keys s ->
  schedule_loop (t :: rest) s g =
  schedule_loop rest
    (s ++ [(name t,
            mkEntry start (start + (simulate_duration t g).1)
              (simulate_duration t g).1 (value_added t) (base_duration t))])
    (simulate_duration t g).2.
Proof.
  intros H Hk. cbn [schedule_loop]. rewrite H. cbn [bind].
  destruct (simulate_duration t g) as [d g']. cbn [fst snd].
  by rewrite dict_set_fresh.
Qed.

Lemma schedule_loop_step_fixed (t : Task) (rest : list Task) (s : dict ScheduleEntry)
    (g : Random) (start : Q) :
  value_added t = true ->
  start_of s (dependencies t) = inr start ->
  name t ∉ keys s ->
  schedule_loop (t :: rest) s g =
  schedule_loop rest
    (s ++ [(name t,
            mkEntry start (start + (base_duration t + 0)) (base_duration t + 0)
              true (base_duration t))])
    g.
Proof.
  intros Hva H Hk. rewrite (schedule_loop_step _ _ _ _ _ H Hk).
  rewrite (simulate_duration_fixed t g (or_introl Hva)). simpl. by rewrite Hva.
Qed.

Ltac tidy_schedule :=
  cbn [app fold_left finish_time start_time real_duration entry_value_added
       entry_base_duration name base_duration value_added dependencies fst snd].

(** One iteration of the loop of lines 80-87 on a task that adds value. *)
Ltac step_fixed :=
  erewrite schedule_loop_step_fixed;
    [ | reflexivity | reflexivity | compute_done ]; tidy_schedule.

(** One iteration on a task whose duration is sampled. *)
Ltac step_sampled :=
  erewrite schedule_loop_step; [ | reflexivity | compute_done ]; tidy_schedule.

(** The whole schedule as a function of the two sampled durations: only
    Licenciamento and Mobilização are sampled, the first from the state in
    which the call finds the generator, the second from the state the first
    leaves; Acabamentos waits for Alvenaria, never for Instalações. *)
Lemma reference_closed_form (li : Q) (g : Random) :
  let s1 := simulate_duration (licenciamento li) g in
  let s2 := simulate_duration (mobilizacao li) s1.2 in
  exists schedule td,
    compute_schedule recursion_limit (tasks li) g = inr (schedule, s2.2) /\
    Forall2 matches_row schedule (reference_rows s1.1 s2.1) /\
    total_duration_of schedule = inr td /\
    td == 95 + s1.1 + s2.1.
Proof.
  intros s1 s2. rewrite compute_schedule_tasks. unfold tasks.
  step_fixed. step_sampled. step_sampled.
  fold (licenciamento li). fold s1. fold (mobilizacao li). fold s2.
  step_fixed. step_fixed. step_fixed. step_fixed. step_fixed.
  match goal with
  | |- context [Qlt_bool ?a ?b] =>
      replace (Qlt_bool a b) with false
        by (symmetry; apply Qlt_bool_false_iff; lra)
  end.
  step_fixed. cbn [schedule_loop].
  eexists _, _. split; [reflexivity|]. split; [|split; [reflexivity|]].
  - unfold reference_rows.
    repeat (constructor; [split; [reflexivity|]; cbn; split; lra|]).
    constructor.
  - cbn. lra.
Qed.

(** ** Division and order *)

Lemma Qdiv_antitone (c a b : Q) :
  0 <= c -> 0 < a -> a <= b -> c / b <= c / a.
Proof.
  intros Hc Ha Hab.
  apply Qle_shift_div_l; [done|].
  assert (Hz : c / b * b == c) by (field; lra).
  assert (H0 : 0 <= c / b) by (apply Qle_shift_div_l; lra).
  assert (H1 : 0 <= c / b * (b - a)) by (apply Qmult_le_0_compat; lra).
  assert (H2 : c / b * (b - a) == c / b * b - c / b * a) by ring.
  lra.
Qed.

(** ** [lean_improvement] of one or more *)

Lemma schedule_loop_congr (o1 o2 : list Task) :
  Forall2 same_sampling o1 o2 ->
  forall s g, schedule_loop o1 s g = schedule_loop o2 s g.
Proof.
  induction 1 as [|t1 t2 o1 o2 (Hn & Hb & Hva & Hd & Hs) _ IH]; intros s g; [done|].
  cbn [schedule_loop]. rewrite Hn, Hb, Hva, Hd, Hs.
  destruct (start_of s (dependencies t2)) as [e|start]; cbn [bind]; [done|].
  destruct (simulate_duration t2 g) as [d g']. apply IH.
Qed.

Lemma same_sampling_refl (t : Task) : same_sampling t t.
Proof. by repeat split. Qed.

Lemma tasks_same_sampling (li : Q) : 1 <= li -> Forall2 same_sampling (tasks li) (tasks 1).
Proof.
  intros Hli. unfold tasks.
  constructor; [apply same_sampling_refl|].
  constructor.
  { repeat (split; [reflexivity|]). intros g.
    rewrite !simulate_duration_fixed; [done | right; simpl; lra | right; simpl; lra]. }
  constructor.
  { repeat (split; [reflexivity|]). intros g.
    rewrite !simulate_duration_fixed; [done | right; simpl; lra | right; simpl; lra]. }
  repeat (constructor; [apply same_sampling_refl|]). constructor.
Qed.

(** X8.  [simulate_project] does not reject a [lean_improvement] above 1:
    the delay factors are then zero or negative, the test
    [delay_factor > 0] fails, and the call behaves exactly as with
    [lean_improvement = 1]: nothing is drawn, the total duration is 110 days
    and the efficiency [10500 / 110] percent, for every generator. *)
Theorem X8_lean_improvement_above_one (rs : bool) (li : Q) (g : Random) :
  1 <= li ->
  simulate_project rs li g = simulate_project rs 1 g /\
  exists r, simulate_project rs li g = inr (r, g) /\
    ret_total_duration r = 110 /\
    ret_total_value_added r = 105 /\
    ret_efficiency r == 10500 / 110.
Proof.
  intros Hli.
  assert (Heq : simulate_project rs li g = simulate_project rs 1 g).
  { unfold simulate_project, simulate_tasks. rewrite !compute_schedule_tasks.
    rewrite (schedule_loop_congr _ _ (tasks_same_sampling li Hli)).
    by rewrite !tasks_value_added. }
  split; [done|]. rewrite Heq.
  destruct rs; eexists; (split; [vm_compute; reflexivity|]);
    repeat split; vm_compute; reflexivity.
Qed.

Lemma X8_lean_improvement_above_one_witness :
  1 <= 2 /\
  exists r, simulate_project false 2 (constant_random (1 # 2))
            = inr (r, constant_random (1 # 2)) /\
    ret_total_duration r = 110.
Proof.
  assert (Hli : 1 <= 2) by discriminate.
  split; [exact Hli|].
  destruct (X8_lean_improvement_above_one false 2 (constant_random (1 # 2)) Hli)
    as (_ & r & Hsim & Htd & _).
  exists r. split; [exact Hsim | exact Htd].
Defined.

(** ** More improvement, shorter project *)

(** A smaller positive delay factor, everything else and the generator
    being equal: the same values are drawn and the duration is no longer. *)
Lemma simulate_duration_scaled (t1 t2 : Task) (g : Random) :
  unit_draws g ->
  base_duration t1 = base_duration t2 ->
  value_added t1 = value_added t2 ->
  delay_probability t1 = delay_probability t2 ->
  0 < delay_factor t2 -> delay_factor t2 <= delay_factor t1 ->
  (simulate_duration t2 g).2 = (simulate_duration t1 g).2 /\
  (simulate_duration t2 g).1 <= (simulate_duration t1 g).1.
Proof.
  intros Hg Hb Hva Hp Hpos Hle. unfold simulate_duration.
  rewrite Hb, Hva, Hp.
  assert (H1 : Qlt_bool 0 (delay_factor t1) = true) by (apply Qlt_bool_iff; lra).
  assert (H2 : Qlt_bool 0 (delay_factor t2) = true) by (by apply Qlt_bool_iff).
  rewrite H1, H2.
  destruct (negb (value_added t2) && true); simpl; [|split; [done|lra]].
  destruct (Qlt_bool (draws g (consumed g)) (delay_probability t2)); simpl;
    [|split; [done|lra]].
  split; [done|].
  destruct (Hg (S (consumed g))) as [Hlo _].
  assert (0 <= (delay_factor t1 - delay_factor t2) * draws g (S (consumed g)))
    by (apply Qmult_le_0_compat; lra).
  assert ((delay_factor t1 - delay_factor t2) * draws g (S (consumed g))
          == delay_factor t1 * draws g (S (consumed g))
             - delay_factor t2 * draws g (S (consumed g))) by ring.
  lra.
Qed.

Lemma total_monotone (li1 li2 : Q) (g : Random) :
  li1 <= li2 -> unit_draws g ->
  95 + (simulate_duration (licenciamento li2) g).1
     + (simulate_duration (mobilizacao li2) (simulate_duration (licenciamento li2) g).2).1
  <= 95 + (simulate_duration (licenciamento li1) g).1
        + (simulate_duration (mobilizacao li1) (simulate_duration (licenciamento li1) g).2).1.
Proof.
  intros Hli Hg.
  destruct (Qlt_le_dec li2 1) as [Hlt|Hge].
  - assert (Hg1 : unit_draws (simulate_duration (licenciamento li1) g).2)
      by (apply (unit_draws_same _ g); [apply simulate_duration_draws | done]).
    destruct (simulate_duration_scaled (licenciamento li1) (licenciamento li2) g
                Hg eq_refl eq_refl eq_refl) as [Hs1 Hd1]; [simpl; lra | simpl; lra|].
    rewrite Hs1.
    destruct (simulate_duration_scaled (mobilizacao li1) (mobilizacao li2)
                (simulate_duration (licenciamento li1) g).2
                Hg1 eq_refl eq_refl eq_refl) as [_ Hd2]; [simpl; lra | simpl; lra|].
    lra.
  - rewrite (simulate_duration_fixed (licenciamento li2) g) by (right; simpl; lra).
    cbn [fst snd].
    rewrite (simulate_duration_fixed (mobilizacao li2) g) by (right; simpl; lra).
    cbn [fst snd base_duration licenciamento mobilizacao].
    pose proof (simulate_duration_ge_base (licenciamento li1) g Hg) as H1.
    pose proof (simulate_duration_ge_base (mobilizacao li1)
                  (simulate_duration (licenciamento li1) g).2
                  (unit_draws_same _ g (simulate_duration_draws _ _) Hg)) as H2.
    simpl in H1, H2. lra.
Qed.

(** X9.  With the generator in the same state (values in [[0, 1)]), a run
    with a larger [lean_improvement] is never longer and never less
    efficient than a run with a smaller one. *)
Theorem X9_more_improvement_not_longer (rs : bool) (li1 li2 : Q) (g : Random) :
  li1 <= li2 -> unit_draws g ->
  exists r1 g1 r2 g2,
    simulate_project rs li1 g = inr (r1, g1) /\
    simulate_project rs li2 g = inr (r2, g2) /\
    ret_total_duration r2 <= ret_total_duration r1 /\
    ret_efficiency r1 <= ret_efficiency r2.
Proof.
  intros Hli Hg.
  destruct (reference_run li1 g Hg) as (s1 & g1 & td1 & Hrun1 & Htd1 & _ & Hge1 & _ & Hsim1).
  destruct (reference_run li2 g Hg) as (s2 & g2 & td2 & Hrun2 & Htd2 & _ & Hge2 & _ & Hsim2).
  destruct (reference_closed_form li1 g) as (s1' & td1' & Hrun1' & _ & Htd1' & Heq1).
  destruct (reference_closed_form li2 g) as (s2' & td2' & Hrun2' & _ & Htd2' & Heq2).
  rewrite Hrun1 in Hrun1'. injection Hrun1' as <- _.
  rewrite Hrun2 in Hrun2'. injection Hrun2' as <- _.
  rewrite Htd1 in Htd1'. injection Htd1' as <-.
  rewrite Htd2 in Htd2'. injection Htd2' as <-.
  pose proof (total_monotone li1 li2 g Hli Hg) as Hmono.
  assert (Hle : td2 <= td1) by (rewrite Heq1, Heq2; exact Hmono).
  eexists _, g1, _, g2. split; [apply Hsim1|]. split; [apply Hsim2|].
  assert (He1 : 100 * (105 / td1) == 10500 / td1) by (field; lra).
  assert (He2 : 100 * (105 / td2) == 10500 / td2) by (field; lra).
  destruct rs; cbn [ret_total_duration ret_efficiency]; rewrite He1, He2;
    (split; [done|]; apply Qdiv_antitone; lra).
Qed.

Lemma X9_more_improvement_not_longer_witness :
  ((0 <= 1 # 2) /\ unit_draws (constant_random (1 # 2))) /\
  exists r1 g1 r2 g2,
    simulate_project false 0 (constant_random (1 # 2)) = inr (r1, g1) /\
    simulate_project false (1 # 2) (constant_random (1 # 2)) = inr (r2, g2) /\
    ret_total_duration r2 <= ret_total_duration r1.
Proof.
  assert (Hli : 0 <= 1 # 2) by discriminate.
  assert (Hg : unit_draws (constant_random (1 # 2))).
  { intros k. split; [discriminate | reflexivity]. }
  split; [done|].
  destruct (X9_more_improvement_not_longer false 0 (1 # 2) (constant_random (1 # 2)) Hli Hg)
    as (r1 & g1 & r2 & g2 & H1 & H2 & Hle & _).
  exists r1, g1, r2, g2. split; [exact H1|]. split; [exact H2 | exact Hle].
Defined.

(** ** More on the Monte Carlo runner *)

(** X10.  A Monte Carlo run of one simulation reports the result of the
    single call of [simulate_project] that it makes: the mean, the minimum
    and the maximum duration are the total duration of that call, the mean
    value added is its value-added sum, the efficiency is its efficiency,
    and the generator is left in the same state. *)
Theorem X10_one_simulation (li : Q) (g : Random) :
  unit_draws g ->
  exists r g' rep,
    simulate_project false li g = inr (r, g') /\
    run_monte_carlo_simulation 1 li g = inr (rep, g') /\
    avg_duration rep == ret_total_duration r /\
    min_duration rep = ret_total_duration r /\
    max_duration rep = ret_total_duration r /\
    avg_value_added rep == ret_total_value_added r /\
    report_efficiency rep == ret_efficiency r.
Proof.
  intros Hg.
  destruct (reference_run li g Hg) as (s & g' & td & _ & _ & _ & Hge & _ & Hsim).
  specialize (Hsim false).
  assert (H1 : (0 + td) / inject_Z 1 == td) by (field; discriminate).
  assert (H2 : (0 + 105) / inject_Z 1 == 105) by reflexivity.
  eexists _, g', _. split; [exact Hsim|].
  unfold run_monte_carlo_simulation. change (Z.to_nat 1) with 1%nat.
  cbn [monte_carlo_loop]. rewrite Hsim.
  cbn [bind monte_carlo_loop ret_total_duration ret_total_value_added app].
  rewrite !(py_div_ok _ (inject_Z 1)) by discriminate. cbn [bind].
  rewrite py_div_ok by (rewrite H1; lra). cbn [bind py_min py_max fold_left].
  split; [reflexivity|].
  cbn [avg_duration min_duration max_duration avg_value_added report_efficiency
       ret_total_duration ret_total_value_added ret_efficiency].
  repeat split; try done. by rewrite H1, H2.
Qed.

Lemma X10_one_simulation_witness :
  unit_draws (constant_random (1 # 2)) /\
  exists rep g',
    run_monte_carlo_simulation 1 0 (constant_random (1 # 2)) = inr (rep, g') /\
    min_duration rep = 456 # 4 /\ max_duration rep = 456 # 4.
Proof.
  assert (Hg : unit_draws (constant_random (1 # 2))).
  { intros k. split; [discriminate | reflexivity]. }
  split; [exact Hg|].
  destruct (X10_one_simulation 0 (constant_random (1 # 2)) Hg)
    as (r & g' & rep & Hsim & Hrun & _ & Hmin & Hmax & _).
  assert (Hr : exists g0, simulate_project false 0 (constant_random (1 # 2))
                          = inr (Ret3 (456 # 4) 105 (42000 # 456), g0))
    by (eexists; vm_compute; reflexivity).
  destruct Hr as [g0 Hr]. rewrite Hr in Hsim. injection Hsim as <- <-.
  exists rep, g0. split; [exact Hrun|]. split; [exact Hmin | exact Hmax].
Defined.

Lemma fixed_run :
  exists r0, ret_total_duration r0 = 110 /\ ret_total_value_added r0 = 105 /\
    forall li g, 1 <= li -> simulate_project false li g = inr (r0, g).
Proof.
  eexists. split; [|split]; cycle 2.
  - intros li g Hli.
    unfold simulate_project, simulate_tasks. rewrite compute_schedule_tasks.
    rewrite (schedule_loop_congr _ _ (tasks_same_sampling li Hli)).
    rewrite tasks_value_added. vm_compute. reflexivity.
  - reflexivity.
  - reflexivity.
Qed.

Lemma Qlt_bool_irrefl (x : Q) : Qlt_bool x x = false.
Proof. apply Qlt_bool_false_iff, Qle_refl. Qed.

Lemma py_min_repeat (x : Q) (n : nat) : py_min (repeat x (S n)) = inr x.
Proof.
  simpl. f_equal. induction n as [|n IH]; simpl; [done|].
  by rewrite Qlt_bool_irrefl.
Qed.

Lemma py_max_repeat (x : Q) (n : nat) : py_max (repeat x (S n)) = inr x.
Proof.
  simpl. f_equal. induction n as [|n IH]; simpl; [done|].
  by rewrite Qlt_bool_irrefl.
Qed.

(** The loop of lines 127-131 when every call returns the same result
    without drawing. *)
Lemma monte_carlo_loop_fixed (li : Q) (r0 : retval) :
  (forall g, simulate_project false li g = inr (r0, g)) ->
  forall (n : nat) (total_d total_v : Q) (durs : list Q) (g : Random),
  monte_carlo_loop n li (total_d, total_v, durs) g
    = inr ((fold_left Qplus (repeat (ret_total_duration r0) n) total_d,
            fold_left Qplus (repeat (ret_total_value_added r0) n) total_v,
            durs ++ repeat (ret_total_duration r0) n), g).
Proof.
  intros Hsim. induction n as [|n IH]; intros total_d total_v durs g.
  - simpl. by rewrite app_nil_r.
  - cbn [monte_carlo_loop]. rewrite Hsim. cbn [bind].
    rewrite IH. simpl. by rewrite <- app_assoc.
Qed.

(** X12.  With [lean_improvement >= 1] the Monte Carlo run is
    deterministic: for every positive number of simulations and every
    generator it draws nothing and reports a minimum, mean and maximum
    duration of 110 days, a mean value added of 105 and an efficiency of
    [10500 / 110] percent. *)
Theorem X12_report_without_delays (num : Z) (li : Q) (g : Random) :
  (0 < num)%Z -> 1 <= li ->
  exists rep,
    run_monte_carlo_simulation num li g = inr (rep, g) /\
    min_duration rep = 110 /\
    max_duration rep = 110 /\
    avg_duration rep == 110 /\
    avg_value_added rep == 105 /\
    report_efficiency rep == 10500 / 110.
Proof.
  intros Hnum Hli.
  destruct fixed_run as (r0 & Htd & Hva & Hsim).
  pose proof (monte_carlo_loop_fixed li r0 (fun g0 => Hsim li g0 Hli)
                (Z.to_nat num) 0 0 [] g) as Hloop.
  rewrite Htd, Hva in Hloop.
  assert (Hn : 0 < inject_Z num).
  { change 0 with (inject_Z 0). by rewrite <- Zlt_Qlt. }
  pose proof (fold_left_Qplus_repeat 110 (Z.to_nat num) 0) as Hd.
  pose proof (fold_left_Qplus_repeat 105 (Z.to_nat num) 0) as Hv.
  rewrite Z2Nat.id in Hd, Hv by lia.
  assert (Hd' : fold_left Qplus (repeat 110 (Z.to_nat num)) 0 / inject_Z num == 110).
  { rewrite Hd. field. lra. }
  assert (Hv' : fold_left Qplus (repeat 105 (Z.to_nat num)) 0 / inject_Z num == 105).
  { rewrite Hv. field. lra. }
  destruct (Z.to_nat num) as [|n] eqn:Hnat; [lia|].
  eexists. unfold run_monte_carlo_simulation. rewrite Hnat, Hloop. cbn [bind].
  rewrite !(py_div_ok _ (inject_Z num)) by lra. cbn [bind].
  rewrite py_div_ok by (rewrite Hd'; discriminate). cbn [bind app].
  rewrite py_min_repeat, py_max_repeat. cbn [bind].
  split; [reflexivity|].
  cbn [min_duration max_duration avg_duration avg_value_added report_efficiency].
  repeat (split; [done|]). rewrite Hd', Hv'. reflexivity.
Qed.

Lemma X12_report_without_delays_witness :
  ((0 < 5)%Z /\ 1 <= 1) /\
  exists rep,
    run_monte_carlo_simulation 5 1 (constant_random (1 # 2))
      = inr (rep, constant_random (1 # 2)) /\
    min_duration rep = 110 /\ max_duration rep = 110.
Proof.
  assert (Hn : (0 < 5)%Z) by reflexivity.
  assert (Hli : 1 <= 1) by discriminate.
  split; [done|].
  destruct (X12_report_without_delays 5 1 (constant_random (1 # 2)) Hn Hli)
    as (rep & Hrun & Hmin & Hmax & _).
  exists rep. split; [exact Hrun|]. split; [exact Hmin | exact Hmax].
Defined.

(** ** The sampler at the bounds of [delay_probability] *)

(** X13.  For a task that does not add value and has a positive
    [delay_factor], with generator values in [[0, 1)]: when
    [delay_probability >= 1] (the default of the constructor is 1.0) the
    delay always occurs and two values are drawn; when
    [delay_probability <= 0] the delay never occurs, yet one value is
    drawn. *)
Theorem X13_delay_probability_bounds (t : Task) (g : Random) :
  unit_draws g -> value_added t = false -> 0 < delay_factor t ->
  (1 <= delay_probability t ->
     simulate_duration t g =
       (base_duration t + (0 + (delay_factor t - 0) * draws g (S (consumed g))),
        mkRandom (draws g) (S (S (consumed g))))) /\
  (delay_probability t <= 0 ->
     simulate_duration t g =
       (base_duration t + 0, mkRandom (draws g) (S (consumed g)))).
Proof.
  intros Hg Hva Hdf. destruct (Hg (consumed g)) as [Hlo Hhi]. split; intros Hp.
  - apply simulate_duration_delayed; [done | done | lra].
  - apply simulate_duration_no_delay; [done | done | lra].
Qed.

Lemma X13_delay_probability_bounds_witness :
  (unit_draws (constant_random (9 # 10)) /\ 0 < 5) /\
  simulate_duration (mkTask "T" 10 false 5 1 []) (constant_random (9 # 10))
    = (10 + (0 + (5 - 0) * (9 # 10)), mkRandom (fun _ => 9 # 10) 2) /\
  simulate_duration (mkTask "T" 10 false 5 0 []) (constant_random (9 # 10))
    = (10 + 0, mkRandom (fun _ => 9 # 10) 1).
Proof.
  assert (Hg : unit_draws (constant_random (9 # 10))).
  { intros k. split; [discriminate | reflexivity]. }
  assert (Hdf : 0 < 5) by reflexivity.
  split; [done|]. split.
  - apply (X13_delay_probability_bounds (mkTask "T" 10 false 5 1 []) _ Hg eq_refl Hdf).
    discriminate.
  - apply (X13_delay_probability_bounds (mkTask "T" 10 false 5 0 []) _ Hg eq_refl Hdf).
    discriminate.
Defined.

(** ** How far a run advances the generator *)

Lemma simulate_duration_draws_one (t : Task) (g : Random) :
  value_added t = false -> 0 < delay_factor t ->
  (consumed g + 1 <= consumed (simulate_duration t g).2)%nat.
Proof.
  intros Hva Hdf. unfold simulate_duration.
  apply Qlt_bool_iff in Hdf. rewrite Hva, Hdf. simpl.
  destruct (Qlt_bool (draws g (consumed g)) (delay_probability t)); simpl; lia.
Qed.

(** X14.  A returning call of [simulate_project] leaves the sequence of the
    generator unchanged and advances it by at most four values: by none
    when [lean_improvement >= 1], and by at least two (one per task that
    does not add value) when [lean_improvement < 1]. *)
Theorem X14_values_drawn (rs : bool) (li : Q) (g : Random) (r : retval) (g' : Random) :
  simulate_project rs li g = inr (r, g') ->
  draws g' = draws g /\
  (consumed g <= consumed g' <= consumed g + 4)%nat /\
  (1 <= li -> consumed g' = consumed g) /\
  (li < 1 -> (consumed g + 2 <= consumed g')%nat).
Proof.
  intros Hsim.
  pose proof (simulate_project_draws _ _ _ _ _ Hsim) as Hdraws.
  apply simulate_project_inv in Hsim as (s & td & Hs & _).
  destruct (reference_closed_form li g) as (s' & td' & Hs' & _).
  rewrite Hs in Hs'. injection Hs' as _ ->.
  pose proof (simulate_duration_consumed (licenciamento li) g) as H1.
  pose proof (simulate_duration_consumed (mobilizacao li)
                (simulate_duration (licenciamento li) g).2) as H2.
  split; [done|]. split; [lia|]. split.
  - intros Hli.
    rewrite (simulate_duration_fixed (licenciamento li) g) by (right; simpl; lra).
    cbn [snd].
    by rewrite (simulate_duration_fixed (mobilizacao li) g) by (right; simpl; lra).
  - intros Hli.
    pose proof (simulate_duration_draws_one (licenciamento li) g eq_refl) as H3.
    pose proof (simulate_duration_draws_one (mobilizacao li)
                  (simulate_duration (licenciamento li) g).2 eq_refl) as H4.
    simpl in H3, H4. specialize (H3 ltac:(lra)). specialize (H4 ltac:(lra)). lia.
Qed.

Lemma X14_values_drawn_witness :
  exists g',
    simulate_project false 0 (constant_random (9 # 10))
      = inr (Ret3 110 105 (10500 # 110), g') /\
    consumed g' = 2%nat.
Proof.
  assert (H : exists g', simulate_project false 0 (constant_random (9 # 10))
                         = inr (Ret3 110 105 (10500 # 110), g') /\
                         (consumed g' <= 2)%nat).
  { eexists. split; [vm_compute; reflexivity | simpl; lia]. }
  destruct H as (g' & Hsim & Hle). exists g'. split; [exact Hsim|].
  destruct (X14_values_drawn false 0 _ _ _ Hsim) as (_ & _ & _ & Hlo).
  specialize (Hlo ltac:(reflexivity)). simpl in Hlo. lia.
Defined.

(** ** Dependence on the generator, for any project *)

Lemma filter_submseteq {A : Type} (P : A -> Prop) `{forall x, Decision (P x)}
    (l1 l2 : list A) :
  l1 ⊆+ l2 -> filter P l1 ⊆+ filter P l2.
Proof.
  induction 1; rewrite ?filter_cons;
    repeat (simpl; repeat case_decide); try done; by econstructor.
Qed.

Lemma order_max_draws (fuel : nat) (ts order : list Task) :
  topological_order fuel ts = inr order ->
  (max_draws order <= max_draws ts)%nat.
Proof.
  unfold topological_order.
  destruct (visit_all fuel (tasks_by_name ts) ts ([], ∅)) as [err|st] eqn:Hall;
    simpl; [done|].
  intros [= <-].
  destruct (visit_all_sound ts (tasks_by_name ts) (tasks_by_name_Some ts)
              fuel ts _ _ (fun t Ht => Ht) (visit_inv_init ts) Hall)
    as ((Hnd & _ & Hsub & _) & _).
  assert (Hsm : st.1 ⊆+ ts).
  { apply NoDup_submseteq; [|done]. by apply (NoDup_fmap_1 name). }
  unfold max_draws.
  pose proof (submseteq_length _ _
                (filter_submseteq (fun t => value_added t = false) _ _ Hsm)).
  lia.
Qed.

(** X15.  For any list of tasks, lines 61-96 read the generator only
    through the values they draw, and draw at most two for each task that
    does not add value: two calls that start with generators returning the
    same next [max_draws] values raise the same exception or return the same
    result. *)
Theorem X15_generator_dependence (fuel : nat) (ts : list Task) (rs : bool)
    (g1 g2 : Random) :
  same_draws (max_draws ts) g1 g2 ->
  same_outcome (simulate_tasks fuel ts rs g1) (simulate_tasks fuel ts rs g2).
Proof.
  intros Hag. unfold simulate_tasks, compute_schedule.
  destruct (topological_order fuel ts) as [e|order] eqn:Horder; cbn [bind]; [done|].
  pose proof (order_max_draws _ _ _ Horder) as Hle.
  pose proof (schedule_loop_agree order [] g1 g2 _ Hag) as Hloop.
  specialize (Hloop ltac:(lia)).
  destruct (schedule_loop order [] g1) as [e1|[s1 g1']];
    destruct (schedule_loop order [] g2) as [e2|[s2 g2']];
    simpl in Hloop; try done.
  destruct Hloop as [<- Hc]. cbn [bind].
  destruct (total_duration_of s1) as [err|td]; cbn [bind]; [done|].
  destruct (py_div _ td) as [err|ratio]; cbn [bind]; [done|].
  by destruct rs.
Qed.

Lemma X15_generator_dependence_witness :
  same_draws (max_draws (tasks 0))
    (list_random [1 # 2; 1 # 2; 9 # 10; 9 # 10])
    (list_random [1 # 2; 1 # 2; 9 # 10; 9 # 10; 1 # 3]) /\
  same_outcome
    (simulate_tasks 9 (tasks 0) false (list_random [1 # 2; 1 # 2; 9 # 10; 9 # 10]))
    (simulate_tasks 9 (tasks 0) false (list_random [1 # 2; 1 # 2; 9 # 10; 9 # 10; 1 # 3])).
Proof.
  assert (H : same_draws (max_draws (tasks 0))
                (list_random [1 # 2; 1 # 2; 9 # 10; 9 # 10])
                (list_random [1 # 2; 1 # 2; 9 # 10; 9 # 10; 1 # 3])).
  { assert (Hm : max_draws (tasks 0) = 4%nat) by reflexivity.
    rewrite Hm. split; [reflexivity|]. simpl. intros k Hk.
    do 4 (destruct k as [|k]; [reflexivity|]). lia. }
  split; [exact H|].
  apply (X15_generator_dependence 9 (tasks 0) false _ _ H).
Defined.
